(** * The /proxy route of node-proxy (src/routes/index.js)

    A shallow embedding of the [POST /proxy] handler: the JavaScript values
    it inspects, the builtins it calls ([!], [||], member access,
    [JSON.stringify], [JSON.parse], promise chaining), the Express request
    and response it reads and writes, and the outbound HTTP client [got].

    The handler is a computation in a state-and-exception monad whose state
    holds the request, the response and the list of effects performed (log
    lines and outbound calls). *)

From Stdlib Require Import ZArith List String Ascii Bool Lia.
From Stdlib Require Import DecimalString.
Import ListNotations.
Open Scope string_scope.
Set Warnings "-register-all".

(** ** JavaScript values *)

(** The values that reach the handler: what body-parser decodes from JSON
    text, plus [undefined] and error objects.  Numbers are the
    integer-valued ones (the handler never does arithmetic on a number: it
    only tests it for truthiness and passes it on): [JNum n] is the Number
    value for the integer [n], which is [n] itself up to [2 ^ 53] and the
    nearest double beyond; a number with a fractional part is not among
    these values.  A string is its
    sequence of bytes, one per UTF-16 code unit for ASCII text.  The
    properties of an object are an association list in enumeration order,
    which is the order JSON.stringify writes them in; the first entry for a
    key is the property.  An error object carries its
    [name] and [message] (not enumerable) next to its enumerable own
    properties (got's [statusCode], [code], ... ). *)
Inductive JsVal : Type :=
| JUndefined
| JNull
| JBool (b : bool)
| JNum (n : Z)
| JStr (s : string)
| JArr (xs : list JsVal)
| JObj (props : list (string * JsVal))
| JError (name message : string) (props : list (string * JsVal)).

Definition Props := list (string * JsVal).

(** ToBoolean: what [if (v)], [!v] and [v || w] test. *)
Definition to_boolean (v : JsVal) : bool :=
  match v with
  | JUndefined | JNull => false
  | JBool b => b
  | JNum n => negb (n =? 0)%Z
  | JStr s => negb (s =? EmptyString)
  | JArr _ | JObj _ | JError _ _ _ => true
  end.

(** [v || w] *)
Definition js_or (v w : JsVal) : JsVal := if to_boolean v then v else w.

Definition is_nullish (v : JsVal) : bool :=
  match v with
  | JUndefined | JNull => true
  | _ => false
  end.

(** *** Properties *)

Fixpoint lookup (k : string) (ps : Props) : option JsVal :=
  match ps with
  | [] => None
  | (k', v) :: ps' => if k' =? k then Some v else lookup k ps'
  end.

Definition has_key (k : string) (ps : Props) : bool :=
  match lookup k ps with
  | Some _ => true
  | None => false
  end.

Definition or_undefined (o : option JsVal) : JsVal :=
  match o with
  | Some v => v
  | None => JUndefined
  end.

Definition string_of_Z (n : Z) : string :=
  NilZero.string_of_int (Z.to_int n).

Definition is_digit (c : ascii) : bool :=
  let n := nat_of_ascii c in (48 <=? n)%nat && (n <=? 57)%nat.

Fixpoint digits_value (acc : Z) (s : string) : option Z :=
  match s with
  | EmptyString => Some acc
  | String c s' =>
      if is_digit c
      then digits_value (10 * acc + Z.of_nat (nat_of_ascii c - 48)) s'
      else None
  end.

(** A key is an array index when it is the canonical decimal text of a
    natural number ([1] is, [01] and the empty key are not). *)
Definition index_of_key (k : string) : option nat :=
  match k with
  | EmptyString => None
  | _ =>
      match digits_value 0 k with
      | Some n => if string_of_Z n =? k then Some (Z.to_nat n) else None
      | None => None
      end
  end.

(** [v.k] for a value that is neither [undefined] nor [null]: own
    properties of objects and errors, [length] and the indices of arrays
    and strings.  None of the keys the handler reads ([url], [method],
    [body], [timeout], [retries], [headers], [statusCode]) is inherited
    from a builtin prototype, so a key that is not found is [undefined]. *)
Definition get_prop (v : JsVal) (k : string) : JsVal :=
  match v with
  | JObj ps => or_undefined (lookup k ps)
  | JError name message ps =>
      match lookup k ps with
      | Some x => x
      | None =>
          if k =? "message" then JStr message
          else if k =? "name" then JStr name
          else JUndefined
      end
  | JArr xs =>
      if k =? "length" then JNum (Z.of_nat (List.length xs))
      else match index_of_key k with
           | Some i => nth i xs JUndefined
           | None => JUndefined
           end
  | JStr s =>
      if k =? "length" then JNum (Z.of_nat (String.length s))
      else match index_of_key k with
           | Some i =>
               match String.get i s with
               | Some c => JStr (String c EmptyString)
               | None => JUndefined
               end
           | None => JUndefined
           end
  | _ => JUndefined
  end.

(** [o.k = v] on the property list of an ordinary object: an existing key
    keeps its place, a new key goes last (the handler only adds the keys
    [body], [timeout], [retries] and [headers], none an array index). *)
Fixpoint assign (k : string) (v : JsVal) (ps : Props) : Props :=
  match ps with
  | [] => [(k, v)]
  | (k', v') :: ps' =>
      if k' =? k then (k, v) :: ps' else (k', v') :: assign k v ps'
  end.

Definition set_prop (o : JsVal) (k : string) (v : JsVal) : JsVal :=
  match o with
  | JObj ps => JObj (assign k v ps)
  | JError name message ps => JError name message (assign k v ps)
  | _ => o
  end.

(** A key that is an array index (at most [2 ^ 32 - 2]): such keys are
    enumerated first, in ascending order. *)
Definition array_index (k : string) : option Z :=
  match k with
  | EmptyString => None
  | _ =>
      match digits_value 0 k with
      | Some n =>
          if (string_of_Z n =? k) && (n <=? 4294967294)%Z then Some n else None
      | None => None
      end
  end.

Fixpoint insert_index (i : Z) (k : string) (v : JsVal) (ps : Props) : Props :=
  match ps with
  | [] => [(k, v)]
  | (k', v') :: ps' =>
      match array_index k' with
      | Some j =>
          if (j <? i)%Z then (k', v') :: insert_index i k v ps'
          else (k, v) :: ps
      | None => (k, v) :: ps
      end
  end.

(** CreateDataProperty on a property list in enumeration order, for any
    key: an existing key keeps its place, a new array index goes among
    the indices, any other new key goes last. *)
Definition define_property (k : string) (v : JsVal) (ps : Props) : Props :=
  if has_key k ps then assign k v ps
  else match array_index k with
       | Some i => insert_index i k v ps
       | None => (ps ++ [(k, v)])%list
       end.

(** [delete o.k], used to compare a descriptor with the one that lacks a
    field. *)
Fixpoint remove_key (k : string) (ps : Props) : Props :=
  match ps with
  | [] => []
  | (k', v) :: ps' =>
      if k' =? k then remove_key k ps' else (k', v) :: remove_key k ps'
  end.

(** *** Number to text *)

(** Number::toString for the integer-valued numbers, in integer
    arithmetic: up to [2 ^ 53] the digits of the integer; beyond, the
    digits of the shortest decimal that reads back as the same double,
    with an exponent from 22 digits on. *)

(** The Number value for a positive integer [a]: the nearest double, ties
    to the even significand, as [significand * 2 ^ exponent] with the
    significand below [2 ^ 53]; [None] is [Infinity]. *)
Definition number_value (a : Z) : option (Z * Z) :=
  let b := Z.log2 a in
  if (b <? 53)%Z then Some (a, 0%Z)
  else
    let ex := (b - 52)%Z in
    let u := Z.shiftl 1 ex in
    let q := (a / u)%Z in
    let r := (a mod u)%Z in
    let q' := if (u <? 2 * r)%Z || ((2 * r =? u)%Z && Z.odd q)
              then (q + 1)%Z else q in
    let (mant, ex') := if (q' =? 2 ^ 53)%Z then ((2 ^ 52)%Z, (ex + 1)%Z)
                       else (q', ex) in
    if (971 <? ex')%Z then None else Some (mant, ex').

(** The integers that read back as the double [mant * 2 ^ ex]
    ([1 <= ex]) lie within half a gap of it, the ends included when the
    significand is even; below a power of two the gap is half as wide.
    The bounds are doubled to stay in the integers. *)
Definition lower2 (mant ex : Z) : Z :=
  (Z.shiftl (2 * mant) ex
   - (if (mant =? 2 ^ 52)%Z then Z.shiftl 1 (ex - 1) else Z.shiftl 1 ex))%Z.

Definition upper2 (mant ex : Z) : Z :=
  (Z.shiftl (2 * mant) ex + Z.shiftl 1 ex)%Z.

Definition reads_back (closed : bool) (lo2 hi2 c : Z) : bool :=
  if closed
  then (lo2 <=? 2 * c)%Z && (2 * c <=? hi2)%Z
  else (lo2 <? 2 * c)%Z && (2 * c <? hi2)%Z.

(** The integer with the fewest significant digits that reads back as the
    double [m], with its number of trailing zeros: a multiple of the
    largest power of ten [w = 10 ^ p] that has one in range, the nearer
    one if there are two, the one with the even last digit if they are as
    near. *)
Fixpoint shortest (closed : bool) (lo2 hi2 m w : Z) (p : nat) : Z * nat :=
  let c1 := (m / w * w)%Z in
  let c2 := (c1 + w)%Z in
  match reads_back closed lo2 hi2 c1, reads_back closed lo2 hi2 c2 with
  | true, true =>
      if (m - c1 <? c2 - m)%Z then (c1 / w, p)%Z
      else if (c2 - m <? m - c1)%Z then (c2 / w, p)%Z
      else if Z.even (c1 / w) then (c1 / w, p)%Z else (c2 / w, p)%Z
  | true, false => (c1 / w, p)%Z
  | false, true => (c2 / w, p)%Z
  | false, false =>
      match p with
      | S p' => shortest closed lo2 hi2 m (w / 10) p'
      | O => (m, O)
      end
  end.

Fixpoint zeros (n : nat) : string :=
  match n with
  | O => EmptyString
  | S n' => String "0" (zeros n')
  end.

(** Number::toString of a positive integer-valued number with the digits
    of [t] followed by [p] zeros: written out up to 21 digits, with an
    exponent beyond. *)
Definition number_digits (t : Z) (p : nat) : string :=
  let ds := string_of_Z t in
  let n := (String.length ds + p)%nat in
  if (n <=? 21)%nat then ds ++ zeros p
  else match ds with
       | String d EmptyString => String d ("e+" ++ string_of_Z (Z.of_nat (n - 1)))
       | String d ds' => String d ("." ++ ds' ++ "e+" ++ string_of_Z (Z.of_nat (n - 1)))
       | EmptyString => EmptyString
       end.

Definition positive_text (a : Z) : option string :=
  match number_value a with
  | None => None
  | Some (mant, ex) =>
      if (ex =? 0)%Z then Some (string_of_Z mant)
      else
        let p := (Z.to_nat (Z.log2 a / 3) + 1)%nat in
        let (t, z) := shortest (Z.even mant) (lower2 mant ex) (upper2 mant ex)
                               (Z.shiftl mant ex) (10 ^ Z.of_nat p) p in
        Some (number_digits t z)
  end.

(** The text of the Number value for the integer [n]; [None] for
    [Infinity] and [-Infinity]. *)
Definition Number_toString (n : Z) : option string :=
  if (n =? 0)%Z then Some "0"
  else if (n <? 0)%Z
       then match positive_text (- n) with
            | Some t => Some ("-" ++ t)
            | None => None
            end
       else positive_text n.

(** What JSON.stringify writes for a number: [null] when it is not
    finite. *)
Definition number_text (n : Z) : string :=
  match Number_toString n with
  | Some t => t
  | None => "null"
  end.
Arguments number_text : simpl never.

(** *** JSON.stringify *)

Definition dquote : string := String (ascii_of_nat 34) EmptyString.

Definition hex_digit (n : nat) : ascii :=
  ascii_of_nat (if (n <? 10)%nat then 48 + n else 87 + n).

(** QuoteJSONString, one character at a time. *)
Definition escape_char (c : ascii) : string :=
  let n := nat_of_ascii c in
  if (n =? 34)%nat then "\" ++ dquote
  else if (n =? 92)%nat then "\\"
  else if (n =? 8)%nat then "\b"
  else if (n =? 9)%nat then "\t"
  else if (n =? 10)%nat then "\n"
  else if (n =? 12)%nat then "\f"
  else if (n =? 13)%nat then "\r"
  else if (n <? 32)%nat
       then "\u00" ++ String (hex_digit (n / 16))
                        (String (hex_digit (n mod 16)) EmptyString)
  else String c EmptyString.

Fixpoint escape (s : string) : string :=
  match s with
  | EmptyString => EmptyString
  | String c s' => escape_char c ++ escape s'
  end.

Definition quote (s : string) : string := dquote ++ escape s ++ dquote.

Fixpoint join (sep : string) (parts : list string) : string :=
  match parts with
  | [] => EmptyString
  | [p] => p
  | p :: ps => p ++ sep ++ join sep ps
  end.

(** The text [JSON.stringify v] produces, [None] where it produces
    [undefined].  An [undefined] array element is written [null], an
    [undefined] property is left out; a number is written as
    Number::toString gives it; of an error object only the enumerable
    properties are written. *)
Fixpoint stringify (v : JsVal) : option string :=
  let members :=
    fix members (ps : Props) : list string :=
      match ps with
      | [] => []
      | (k, x) :: ps' =>
          match stringify x with
          | Some t => (quote k ++ ":" ++ t) :: members ps'
          | None => members ps'
          end
      end in
  match v with
  | JUndefined => None
  | JNull => Some "null"
  | JBool true => Some "true"
  | JBool false => Some "false"
  | JNum n => Some (number_text n)
  | JStr s => Some (quote s)
  | JArr xs =>
      Some ("[" ++ join ","
                     (map (fun x => match stringify x with
                                    | Some t => t
                                    | None => "null"
                                    end) xs) ++ "]")
  | JObj ps => Some ("{" ++ join "," (members ps) ++ "}")
  | JError _ _ ps => Some ("{" ++ join "," (members ps) ++ "}")
  end.

Definition JSON_stringify (v : JsVal) : JsVal :=
  match stringify v with
  | Some t => JStr t
  | None => JUndefined
  end.

(** *** JSON.parse *)

(** A reference reader of JSON text for the values of [JsVal]: white space,
    the three literals, numerals, strings with their escapes, arrays and
    objects, whose members are defined in the order of the text (a key
    given twice keeps its last value).  A numeral whose value is not an
    integer and an escape above U+007F denote values [JsVal] does not have
    and are not read.  The handler is stated over any [JSON.parse]; this
    one runs the scenarios. *)

Definition is_ws (c : ascii) : bool :=
  let n := nat_of_ascii c in
  (n =? 32)%nat || (n =? 9)%nat || (n =? 10)%nat || (n =? 13)%nat.

Fixpoint skip_ws (s : string) : string :=
  match s with
  | String c s' => if is_ws c then skip_ws s' else s
  | EmptyString => s
  end.

Fixpoint strip_prefix (p s : string) : option string :=
  match p, s with
  | EmptyString, _ => Some s
  | String a p', String b s' => if (a =? b)%char then strip_prefix p' s' else None
  | String _ _, EmptyString => None
  end.

Definition hex_value (c : ascii) : option nat :=
  let n := nat_of_ascii c in
  if (48 <=? n)%nat && (n <=? 57)%nat then Some (n - 48)
  else if (97 <=? n)%nat && (n <=? 102)%nat then Some (n - 87)
  else if (65 <=? n)%nat && (n <=? 70)%nat then Some (n - 55)
  else None.

Definition unescape (e : ascii) : option ascii :=
  let n := nat_of_ascii e in
  if (n =? 34)%nat then Some e
  else if (n =? 92)%nat then Some e
  else if (n =? 47)%nat then Some e
  else if (e =? "b")%char then Some (ascii_of_nat 8)
  else if (e =? "f")%char then Some (ascii_of_nat 12)
  else if (e =? "n")%char then Some (ascii_of_nat 10)
  else if (e =? "r")%char then Some (ascii_of_nat 13)
  else if (e =? "t")%char then Some (ascii_of_nat 9)
  else None.

Definition push_char (c : ascii) (r : option (string * string)) :
  option (string * string) :=
  match r with
  | Some (t, rest) => Some (String c t, rest)
  | None => None
  end.

(** The characters of a string literal after its opening quote, up to the
    closing one. *)
Fixpoint parse_chars (s : string) : option (string * string) :=
  match s with
  | EmptyString => None
  | String c s' =>
      let n := nat_of_ascii c in
      if (n =? 34)%nat then Some (EmptyString, s')
      else if (n <? 32)%nat then None
      else if (n =? 92)%nat then
        match s' with
        | String e s'' =>
            match unescape e with
            | Some c' => push_char c' (parse_chars s'')
            | None =>
                if (e =? "u")%char then
                  match s'' with
                  | String h1 (String h2 (String h3 (String h4 s4))) =>
                      match hex_value h1, hex_value h2, hex_value h3, hex_value h4 with
                      | Some 0%nat, Some 0%nat, Some a, Some b =>
                          if (a <? 8)%nat
                          then push_char (ascii_of_nat (16 * a + b)) (parse_chars s4)
                          else None
                      | _, _, _, _ => None
                      end
                  | _ => None
                  end
                else None
            end
        | EmptyString => None
        end
      else push_char c (parse_chars s')
  end.

Fixpoint take_digits (s : string) : string * string :=
  match s with
  | String c s' =>
      if is_digit c
      then let (d, r) := take_digits s' in (String c d, r)
      else (EmptyString, s)
  | EmptyString => (EmptyString, s)
  end.

(** The digits of a fraction, none when there is no point. *)
Definition parse_fraction (s : string) : option (string * string) :=
  match s with
  | String c s' =>
      if (c =? ".")%char
      then let (f, r) := take_digits s' in
           match f with
           | EmptyString => None
           | _ => Some (f, r)
           end
      else Some (EmptyString, s)
  | EmptyString => Some (EmptyString, s)
  end.

(** The exponent, 0 when there is none. *)
Definition parse_exponent (s : string) : option (Z * string) :=
  match s with
  | String c s' =>
      if (c =? "e")%char || (c =? "E")%char
      then
        let (negative, s'') :=
          match s' with
          | String g t =>
              if (g =? "-")%char then (true, t)
              else if (g =? "+")%char then (false, t)
              else (false, s')
          | EmptyString => (false, s')
          end in
        let (d, r) := take_digits s'' in
        match d, digits_value 0 d with
        | String _ _, Some e => Some (if negative then (- e)%Z else e, r)
        | _, _ => None
        end
      else Some (0%Z, s)
  | EmptyString => Some (0%Z, s)
  end.

(** [m * 10 ^ k] when it is an integer. *)
Definition scale (m k : Z) : option Z :=
  if (0 <=? k)%Z then Some (m * 10 ^ k)%Z
  else let w := (10 ^ (- k))%Z in
       if (m mod w =? 0)%Z then Some (m / w)%Z else None.

(** A numeral without its sign: digits with no leading zero, then a
    fraction and an exponent if any. *)
Definition parse_int (s : string) : option (Z * string) :=
  let (d, r) := take_digits s in
  match d with
  | EmptyString => None
  | String c d' =>
      if (c =? "0")%char && negb (d' =? EmptyString) then None
      else
        match parse_fraction r with
        | Some (f, r1) =>
            match parse_exponent r1, digits_value 0 (d ++ f) with
            | Some (e, r2), Some m =>
                match scale m (e - Z.of_nat (String.length f)) with
                | Some n => Some (n, r2)
                | None => None
                end
            | _, _ => None
            end
        | None => None
        end
  end.

Definition parse_scalar (s : string) : option (JsVal * string) :=
  match s with
  | EmptyString => None
  | String c s' =>
      if (nat_of_ascii c =? 34)%nat then
        match parse_chars s' with
        | Some (t, r) => Some (JStr t, r)
        | None => None
        end
      else if (c =? "-")%char then
        match parse_int s' with
        | Some (n, r) => Some (JNum (- n), r)
        | None => None
        end
      else if is_digit c then
        match parse_int s with
        | Some (n, r) => Some (JNum n, r)
        | None => None
        end
      else
        match strip_prefix "true" s, strip_prefix "false" s, strip_prefix "null" s with
        | Some r, _, _ => Some (JBool true, r)
        | _, Some r, _ => Some (JBool false, r)
        | _, _, Some r => Some (JNull, r)
        | _, _, _ => None
        end
  end.

Fixpoint parse_value (fuel : nat) (s : string) {struct fuel} :
  option (JsVal * string) :=
  match fuel with
  | O => None
  | S f =>
      match skip_ws s with
      | EmptyString => None
      | String c s' =>
          if (c =? "[")%char then
            match skip_ws s' with
            | String c' r =>
                if (c' =? "]")%char then Some (JArr [], r)
                else parse_elements f [] s'
            | EmptyString => None
            end
          else if (c =? "{")%char then
            match skip_ws s' with
            | String c' r =>
                if (c' =? "}")%char then Some (JObj [], r)
                else parse_members f [] s'
            | EmptyString => None
            end
          else parse_scalar (String c s')
      end
  end
with parse_elements (fuel : nat) (acc : list JsVal) (s : string) {struct fuel} :
  option (JsVal * string) :=
  match fuel with
  | O => None
  | S f =>
      match parse_value f s with
      | Some (v, r) =>
          match skip_ws r with
          | String c r' =>
              if (c =? ",")%char then parse_elements f (acc ++ [v]) r'
              else if (c =? "]")%char then Some (JArr (acc ++ [v]), r')
              else None
          | EmptyString => None
          end
      | None => None
      end
  end
with parse_members (fuel : nat) (acc : Props) (s : string) {struct fuel} :
  option (JsVal * string) :=
  match fuel with
  | O => None
  | S f =>
      match skip_ws s with
      | String q s' =>
          if (nat_of_ascii q =? 34)%nat then
            match parse_chars s' with
            | Some (k, r) =>
                match skip_ws r with
                | String c r' =>
                    if (c =? ":")%char then
                      match parse_value f r' with
                      | Some (v, r2) =>
                          match skip_ws r2 with
                          | String c2 r3 =>
                              if (c2 =? ",")%char
                              then parse_members f (define_property k v acc) r3
                              else if (c2 =? "}")%char
                                   then Some (JObj (define_property k v acc), r3)
                                   else None
                          | EmptyString => None
                          end
                      | None => None
                      end
                    else None
                | EmptyString => None
                end
            | None => None
            end
          else None
      | EmptyString => None
      end
  end.

(** Every call consumes a character, so twice the length is fuel enough. *)
Definition parse_json (s : string) : option JsVal :=
  match parse_value (2 * String.length s + 2) s with
  | Some (v, r) =>
      match skip_ws r with
      | EmptyString => Some v
      | String _ _ => None
      end
  | None => None
  end.

(** ** The request, the response and the effects *)

(** What the handler does to the outside world: a line handed to the
    logger, or a call of [got(url, options)]. *)
Inductive Event : Type :=
| Log (level : string) (args : list JsVal)
| Got (url options : JsVal).

(** [req.params], [req.query] and [req.body]; [res.statusCode] and what
    [res.json] has sent (status and value), if anything; the effects so
    far, oldest first. *)
Record State : Type := mkState {
  req_params : JsVal;
  req_query : JsVal;
  req_body : JsVal;
  res_statusCode : Z;
  res_sent : option (Z * JsVal);
  events : list Event
}.

(** The state in which Express calls the handler: nothing sent, status
    200, no effect yet. *)
Definition incoming (params query body : JsVal) : State :=
  mkState params query body 200 None [].

Fixpoint outbound (evs : list Event) : list (JsVal * JsVal) :=
  match evs with
  | [] => []
  | Got u o :: evs' => (u, o) :: outbound evs'
  | Log _ _ :: evs' => outbound evs'
  end.

(** A statement completes normally or throws. *)
Inductive Completion (A : Type) : Type :=
| Normal (a : A)
| Throw (e : JsVal).
Arguments Normal {A} a.
Arguments Throw {A} e.

Definition M (A : Type) : Type := State -> Completion A * State.

Definition ret {A} (a : A) : M A := fun st => (Normal a, st).

Definition throw {A} (e : JsVal) : M A := fun st => (Throw e, st).

Definition bind {A B} (c : M A) (k : A -> M B) : M B :=
  fun st =>
    match c st with
    | (Normal a, st') => k a st'
    | (Throw e, st') => (Throw e, st')
    end.

Declare Scope js_scope.
Delimit Scope js_scope with js.
Notation "x <- c ;; k" := (bind c (fun x => k))
  (at level 61, c at next level, right associativity) : js_scope.
Notation "c ;; k" := (bind c (fun _ => k))
  (at level 61, right associativity) : js_scope.

(** A promise as the handler's caller finds it in the end: fulfilled,
    rejected, or never settled. *)
Inductive Promise (A : Type) : Type :=
| Fulfilled (a : A)
| Rejected (reason : JsVal)
| Pending.
Arguments Fulfilled {A} a.
Arguments Rejected {A} reason.
Arguments Pending {A}.

(** What got resolves with: the handler reads [response.body], which is
    text since the options it builds never ask got for anything else. *)
Record Response : Type := mkResponse {
  statusCode : Z;
  body : string
}.

(** What a callback of the chain returns: nothing, or [res]. *)
Inductive Result : Type :=
| RUndefined
| RRes.

(** What the handler itself returns: [res], or the promise at the end of
    the chain. *)
Inductive Returned : Type :=
| ReturnRes
| ReturnPromise (p : Promise Result).

Definition TypeError (v : JsVal) (k : string) : JsVal :=
  JError "TypeError"
    ("Cannot read property '" ++ k ++ "' of "
       ++ match v with JNull => "null" | _ => "undefined" end) [].

Definition SyntaxError : JsVal :=
  JError "SyntaxError" "Unexpected token in JSON" [].

Definition HeadersSent : JsVal :=
  JError "Error" "Cannot set headers after they are sent to the client"
    [("code", JStr "ERR_HTTP_HEADERS_SENT")].

Definition read (f : State -> JsVal) : M JsVal := fun st => (Normal (f st), st).

Definition emit (e : Event) : M unit :=
  fun st =>
    (Normal tt,
     mkState (req_params st) (req_query st) (req_body st)
             (res_statusCode st) (res_sent st) (events st ++ [e])).

(** [v.k]: throws on [undefined] and [null]. *)
Definition member (v : JsVal) (k : string) : M JsVal :=
  if is_nullish v then throw (TypeError v k) else ret (get_prop v k).

(** [req.body = v] *)
Definition set_req_body (v : JsVal) : M unit :=
  fun st =>
    (Normal tt,
     mkState (req_params st) (req_query st) v
             (res_statusCode st) (res_sent st) (events st)).

(** [req.body.k] *)
Definition req_body_member (k : string) : M JsVal :=
  (b <- read req_body ;; member b k)%js.

(** [res.status(code)] *)
Definition res_status (code : Z) : M unit :=
  fun st =>
    (Normal tt,
     mkState (req_params st) (req_query st) (req_body st)
             code (res_sent st) (events st)).

(** [res.json(v)]: sends [v] with the current status; Express throws when
    a response has been sent already. *)
Definition res_json (v : JsVal) : M unit :=
  fun st =>
    match res_sent st with
    | None =>
        (Normal tt,
         mkState (req_params st) (req_query st) (req_body st)
                 (res_statusCode st) (Some (res_statusCode st, v)) (events st))
    | Some _ => (Throw HeadersSent, st)
    end.

Definition logger_info (args : list JsVal) : M unit := emit (Log "info" args).
Definition logger_error (args : list JsVal) : M unit := emit (Log "error" args).

(** [p.then(onFulfilled)]: a throw in the callback rejects the new promise,
    a rejection of [p] passes through; while [p] is pending no callback
    runs and the new promise is pending too. *)
Definition then_ {A B} (p : Promise A) (onFulfilled : A -> M B) : M (Promise B) :=
  fun st =>
    match p with
    | Fulfilled a =>
        match onFulfilled a st with
        | (Normal b, st') => (Normal (Fulfilled b), st')
        | (Throw e, st') => (Normal (Rejected e), st')
        end
    | Rejected e => (Normal (Rejected e), st)
    | Pending => (Normal Pending, st)
    end.

(** [p.then(null, onRejected)] *)
Definition then_null {A} (p : Promise A) (onRejected : JsVal -> M A) : M (Promise A) :=
  fun st =>
    match p with
    | Fulfilled a => (Normal (Fulfilled a), st)
    | Rejected e =>
        match onRejected e st with
        | (Normal a, st') => (Normal (Fulfilled a), st')
        | (Throw e', st') => (Normal (Rejected e'), st')
        end
    | Pending => (Normal Pending, st)
    end.

Definition missing (field : string) : JsVal :=
  JObj [("message", JStr (dquote ++ field ++ dquote ++ " is missing."))].

(** ** The handler *)

Section Proxy.

(** The HTTP client: [got(url, options)] returns a promise, which the
    network settles or leaves pending.  [JSON.parse] on text: the value, or [None] where it
    throws a SyntaxError. *)
Variable got : JsVal -> JsVal -> Promise Response.
Variable JSON_parse : string -> option JsVal.

Definition call_got (url options : JsVal) : M (Promise Response) :=
  (emit (Got url options) ;; ret (got url options))%js.

Definition call_JSON_parse (text : string) : M JsVal :=
  match JSON_parse text with
  | Some v => ret v
  | None => throw SyntaxError
  end.

(** [if (req.body.k) { options.k = f(req.body.k) }] *)
Definition copy_if_truthy (k : string) (f : JsVal -> JsVal) (options : JsVal) : M JsVal :=
  (c <- req_body_member k ;;
   if to_boolean c
   then (x <- req_body_member k ;; ret (set_prop options k (f x)))
   else ret options)%js.

(** [app.post('/proxy', (req, res, next) => ...)], routes/index.js
    lines 15-62. *)
Definition proxy_handler : M Returned :=
  (params <- read req_params ;;
   query <- read req_query ;;
   b <- read req_body ;;
   logger_info [JStr "call:received:/:";
                JObj [("params", params); ("query", query); ("body", b)]] ;;
   b <- read req_body ;;
   set_req_body (js_or b (JObj [])) ;;
   url <- req_body_member "url" ;;
   if negb (to_boolean url) then
     res_status 400 ;; res_json (missing "url") ;; ret ReturnRes
   else
   method <- req_body_member "method" ;;
   if negb (to_boolean method) then
     res_status 400 ;; res_json (missing "method") ;; ret ReturnRes
   else
   method <- req_body_member "method" ;;
   options <- ret (JObj [("method", method)]) ;;
   options <- copy_if_truthy "body" JSON_stringify options ;;
   options <- copy_if_truthy "timeout" (fun x => x) options ;;
   options <- copy_if_truthy "retries" (fun x => x) options ;;
   options <- copy_if_truthy "headers" (fun x => x) options ;;
   url <- req_body_member "url" ;;
   logger_info [JStr "proxy calling";
                JObj [("url", url); ("options", options)]] ;;
   url <- req_body_member "url" ;;
   p <- call_got url options ;;
   p <- then_ p (fun response =>
          v <- call_JSON_parse (body response) ;;
          res_json v ;;
          ret RUndefined) ;;
   p <- then_null p (fun err =>
          fullUrl <- req_body_member "url" ;;
          code <- member err "statusCode" ;;
          logger_error [JObj [("fullUrl", fullUrl); ("err", err); ("statusCode", code)];
                        JStr "proxy request error"] ;;
          res_status 400 ;;
          res_json (JObj [("err", err)]) ;;
          ret RRes) ;;
   ret (ReturnPromise p))%js.

End Proxy.

(** ** Descriptors and scenarios *)

(** A field of a descriptor is absent, or present and the empty string. *)
Definition absent_or_empty (d : Props) (k : string) : Prop :=
  lookup k d = None \/ lookup k d = Some (JStr EmptyString).

(** A required field that passes the handler's test. *)
Definition given (d : Props) (k : string) (v : JsVal) : Prop :=
  lookup k d = Some v /\ to_boolean v = true.

Definition optional_fields : list string :=
  ["body"; "timeout"; "retries"; "headers"].

(** The error got rejects with on a response outside 2xx. *)
Definition HTTPError (status : Z) (statusMessage : string) : JsVal :=
  JError "HTTPError"
    ("Response code " ++ string_of_Z status ++ " (" ++ statusMessage ++ ")")
    [("statusCode", JNum status); ("statusMessage", JStr statusMessage)].

(** The error got rejects with when no response arrives. *)
Definition RequestError (code : string) : JsVal :=
  JError "RequestError" ("connect " ++ code) [("code", JStr code)].

Definition kv_text : string :=
  "{" ++ dquote ++ "k" ++ dquote ++ ":" ++ dquote ++ "v" ++ dquote ++ "}".

(** The upstream of the scenarios: [/ok] answers 200 with an object,
    [/text] answers 200 with text that is not JSON, [/bad] answers 500,
    nothing else is reachable. *)
Definition got_scenario (url options : JsVal) : Promise Response :=
  match url with
  | JStr u =>
      if u =? "http://x/ok" then
        Fulfilled (mkResponse 200 kv_text)
      else if u =? "http://x/text" then Fulfilled (mkResponse 200 "not-json")
      else if u =? "http://x/bad" then Rejected (HTTPError 500 "Internal Server Error")
      else Rejected (RequestError "ECONNREFUSED")
  | _ => Rejected (JError "TypeError" "Parameter `url` must be a string or object" [])
  end.

(** The handler run on an incoming request: what it returns and the state
    it leaves. *)
Definition run (got : JsVal -> JsVal -> Promise Response)
  (JSON_parse : string -> option JsVal) (params query body : JsVal) :
  Completion Returned * State :=
  proxy_handler got JSON_parse (incoming params query body).

Definition returned (r : Completion Returned * State) : Completion Returned := fst r.

(** What the caller of /proxy receives: status and JSON value. *)
Definition sent (r : Completion Returned * State) : option (Z * JsVal) :=
  res_sent (snd r).

(** The calls of got made, as pairs of url and options. *)
Definition calls (r : Completion Returned * State) : list (JsVal * JsVal) :=
  outbound (events (snd r)).

Definition scenario (body : JsVal) : Completion Returned * State :=
  run got_scenario parse_json (JObj []) (JObj []) body.

Definition get_ok : Props := [("url", JStr "http://x/ok"); ("method", JStr "GET")].
Definition get_bad : Props := [("url", JStr "http://x/bad"); ("method", JStr "GET")].
Definition get_text : Props := [("url", JStr "http://x/text"); ("method", JStr "GET")].

Definition post_full : Props :=
  [("url", JStr "http://x/ok"); ("method", JStr "POST");
   ("body", JObj [("a", JNum 1)]); ("headers", JObj [("X-Test", JStr "1")]);
   ("timeout", JNum 5000); ("retries", JNum 2)].

Definition post_false : Props :=
  [("url", JStr "http://x/ok"); ("method", JStr "POST"); ("body", JBool false)].

Definition get_no_retry : Props :=
  [("url", JStr "http://x/ok"); ("method", JStr "GET"); ("retries", JNum 0)].

(** The object lines 31-49 leave in [options], written as a function of
    the descriptor; [forwards] relates the handler to it. *)
Definition add_if_truthy (d : Props) (k : string) (f : JsVal -> JsVal)
  (options : JsVal) : JsVal :=
  let v := or_undefined (lookup k d) in
  if to_boolean v then set_prop options k (f v) else options.

Definition options_of (d : Props) : JsVal :=
  add_if_truthy d "headers" (fun x => x)
    (add_if_truthy d "retries" (fun x => x)
       (add_if_truthy d "timeout" (fun x => x)
          (add_if_truthy d "body" JSON_stringify
             (JObj [("method", or_undefined (lookup "method" d))])))).

(** ** The handler on any request body *)

(** body-parser also hands over arrays, and nothing stops a caller of the
    handler from passing another value; for a body that need not be an
    object the reads of lines 20-49 are [get_prop]. *)
Definition add_if_truthy_prop (b : JsVal) (k : string) (f : JsVal -> JsVal)
  (options : JsVal) : JsVal :=
  let v := get_prop b k in
  if to_boolean v then set_prop options k (f v) else options.

Definition options_for (b : JsVal) : JsVal :=
  add_if_truthy_prop b "headers" (fun x => x)
    (add_if_truthy_prop b "retries" (fun x => x)
       (add_if_truthy_prop b "timeout" (fun x => x)
          (add_if_truthy_prop b "body" JSON_stringify
             (JObj [("method", get_prop b "method")])))).

(** The three lines the handler logs (lines 16, 51 and 57). *)
Definition received (params query body : JsVal) : Event :=
  Log "info" [JStr "call:received:/:";
              JObj [("params", params); ("query", query); ("body", body)]].

Definition proxy_calling (url options : JsVal) : Event :=
  Log "info" [JStr "proxy calling"; JObj [("url", url); ("options", options)]].

Definition proxy_request_error (url err : JsVal) : Event :=
  Log "error" [JObj [("fullUrl", url); ("err", err);
                     ("statusCode", get_prop err "statusCode")];
               JStr "proxy request error"].

(** An upstream that accepts the connection and never replies. *)
Definition got_silent (url options : JsVal) : Promise Response := Pending.

(** The keys the handler ever puts into the options. *)
Definition option_keys : list string :=
  ["method"; "body"; "timeout"; "retries"; "headers"].

(** ** The other route (routes/index.js, lines 8-13) *)

(** [async (req, res, next) => { ... }]: the body runs at once and the
    function returns a promise, rejected where the body throws. *)
Definition async_ (body : M Result) : M (Promise Result) :=
  then_ (Fulfilled tt) (fun _ => body).

(** [app.get('/', ...)]; [NODE_ENV] is [process.env.NODE_ENV], a string or
    [undefined]. *)
Definition root_handler (NODE_ENV : JsVal) : M Returned :=
  (p <- async_ (params <- read req_params ;;
                query <- read req_query ;;
                logger_info [JStr "call:received:/:"; params; query] ;;
                res_json (JObj [("env", NODE_ENV)]) ;;
                ret RUndefined) ;;
   ret (ReturnPromise p))%js.

(** ** The logger's serializers (helper/logger.js, lines 283-349) *)

(** [s.split(sep)] for a separator of one character: the pieces between
    the separators, in order; a string without the separator is its own
    single piece, the empty string included. *)
Fixpoint split (sep : ascii) (s : string) : list string :=
  match s with
  | EmptyString => [EmptyString]
  | String c s' =>
      if (c =? sep)%char then EmptyString :: split sep s'
      else match split sep s' with
           | p :: ps => String c p :: ps
           | [] => [String c EmptyString]
           end
  end.

Fixpoint count_char (c : ascii) (s : string) : nat :=
  match s with
  | EmptyString => 0
  | String a s' => (if (a =? c)%char then 1 else 0) + count_char c s'
  end.

(** [maskAuthorization], lines 328-332 *)
Definition maskAuthorization (auth : string) : string :=
  let parts := split " " auth in
  if negb (List.length parts =? 2)%nat then auth
  else nth 0 parts EmptyString ++ " X".

(** The callback of [cookies.map], lines 342-346 *)
Definition maskOne (cookie : string) : string :=
  let parts := split "=" cookie in
  if (List.length parts <? 2)%nat then cookie
  else nth 0 parts EmptyString ++ "=X".

(** [maskCookie], lines 340-348 *)
Definition maskCookie (cookie : string) : string :=
  let cookies := split ";" cookie in
  let maskeCookies := map maskOne cookies in
  join ";" maskeCookies.

(** Two more descriptors for the scenarios: one with fields got would
    understand but the handler does not copy, one whose body is text. *)
Definition post_extra : Props :=
  [("url", JStr "http://x/ok"); ("method", JStr "POST");
   ("json", JBool true); ("followRedirect", JBool false);
   ("headers", JObj [("Authorization", JStr "Bearer sfihpffpr09r73")])].

Definition post_text : Props :=
  [("url", JStr "http://x/ok"); ("method", JStr "POST"); ("body", JStr "hello")].

(** ** The request serializer over a store (helper/logger.js, lines 283-317)

    [serialize] assigns to properties of objects it shares with its
    caller, so here objects live in a store and values refer to them. *)

Definition loc : Type := nat.

Inductive HVal : Type :=
| HUndefined
| HNull
| HBool (b : bool)
| HNum (n : Z)
| HStr (s : string)
| HRef (l : loc).

Definition HObject : Type := list (string * HVal).

(** The objects allocated so far; a reference is an index. *)
Definition Heap : Type := list HObject.

Definition h_truthy (v : HVal) : bool :=
  match v with
  | HUndefined | HNull => false
  | HBool b => b
  | HNum n => negb (n =? 0)%Z
  | HStr s => negb (s =? EmptyString)
  | HRef _ => true
  end.

(** [a === b]: objects are equal when they are the same object. *)
Definition h_strict_eq (a b : HVal) : bool :=
  match a, b with
  | HUndefined, HUndefined => true
  | HNull, HNull => true
  | HBool x, HBool y => Bool.eqb x y
  | HNum x, HNum y => (x =? y)%Z
  | HStr x, HStr y => (x =? y)
  | HRef x, HRef y => (x =? y)%nat
  | _, _ => false
  end.

Fixpoint h_lookup (k : string) (o : HObject) : option HVal :=
  match o with
  | [] => None
  | (k', v) :: o' => if k' =? k then Some v else h_lookup k o'
  end.

Fixpoint h_assign (k : string) (v : HVal) (o : HObject) : HObject :=
  match o with
  | [] => [(k, v)]
  | (k', v') :: o' =>
      if k' =? k then (k, v) :: o' else (k', v') :: h_assign k v o'
  end.

Definition h_object (h : Heap) (l : loc) : HObject := nth l h [].

Fixpoint h_update (h : Heap) (l : loc) (o : HObject) : Heap :=
  match h, l with
  | [], _ => []
  | _ :: h', O => o :: h'
  | x :: h', S l' => x :: h_update h' l' o
  end.

(** The value of property [k] of the object at [l]. *)
Definition h_field (h : Heap) (l : loc) (k : string) : HVal :=
  match h_lookup k (h_object h l) with
  | Some v => v
  | None => HUndefined
  end.

Definition HM (A : Type) : Type := Heap -> Completion A * Heap.

Definition h_ret {A} (a : A) : HM A := fun h => (Normal a, h).

Definition h_throw {A} (e : JsVal) : HM A := fun h => (Throw e, h).

Definition h_bind {A B} (c : HM A) (k : A -> HM B) : HM B :=
  fun h =>
    match c h with
    | (Normal a, h') => k a h'
    | (Throw e, h') => (Throw e, h')
    end.

Declare Scope store_scope.
Delimit Scope store_scope with store.
Notation "x <- c ;; k" := (h_bind c (fun x => k))
  (at level 61, c at next level, right associativity) : store_scope.
Notation "c ;; k" := (h_bind c (fun _ => k))
  (at level 61, right associativity) : store_scope.

Definition NotAnObject (k : string) : JsVal :=
  JError "TypeError" ("Cannot read property '" ++ k ++ "' of undefined") [].

Definition NotAFunction (k : string) : JsVal :=
  JError "TypeError" (k ++ " is not a function") [].

Definition CannotAssign (k : string) : JsVal :=
  JError "TypeError" ("Cannot create property '" ++ k ++ "'") [].

(** [v.k] for the keys the serializer reads ([headers], [authorization],
    [cookie], [originalUrl], [url]), none of which a string, a number or a
    boolean has. *)
Definition h_get (v : HVal) (k : string) : HM HVal :=
  match v with
  | HUndefined | HNull => h_throw (NotAnObject k)
  | HRef l => fun h => (Normal (h_field h l k), h)
  | _ => h_ret HUndefined
  end.

(** [v.k = x]; the file is in strict mode, where assigning to a property
    of a primitive throws. *)
Definition h_set (v : HVal) (k : string) (x : HVal) : HM unit :=
  match v with
  | HUndefined | HNull => h_throw (NotAnObject k)
  | HRef l => fun h => (Normal tt, h_update h l (h_assign k x (h_object h l)))
  | _ => h_throw (CannotAssign k)
  end.

(** [_.clone(v)]: a new object with the same properties, holding the same
    values; a primitive is its own clone. *)
Definition h_clone (v : HVal) : HM HVal :=
  match v with
  | HRef l => fun h => (Normal (HRef (List.length h)), (h ++ [h_object h l])%list)
  | _ => h_ret v
  end.

(** [maskAuthorization(v)] and [maskCookie(v)] start with [v.split(..)]. *)
Definition call_mask (mask : string -> string) (v : HVal) : HM HVal :=
  match v with
  | HStr s => h_ret (HStr (mask s))
  | HUndefined | HNull => h_throw (NotAnObject "split")
  | _ => h_throw (NotAFunction "split")
  end.

Section Serializer.

(** bunyan's standard serializer, which this one wraps. *)
Variable stdSerialize : HVal -> HM HVal.

(** [serialize], lines 284-317 *)
Definition serialize (req : HVal) : HM HVal :=
  (serialized <- stdSerialize req ;;
   headers <- h_get serialized "headers" ;;
   authorization <- h_get headers "authorization" ;;
   shouldUpdateAuthorization <- h_ret (h_truthy authorization) ;;
   headers <- h_get serialized "headers" ;;
   cookie <- h_get headers "cookie" ;;
   shouldUpdateCookie <- h_ret (h_truthy cookie) ;;
   originalUrl <- h_get req "originalUrl" ;;
   shouldUpdateUrl <-
     (if h_truthy originalUrl
      then (originalUrl <- h_get req "originalUrl" ;;
            url <- h_get req "url" ;;
            h_ret (HBool (negb (h_strict_eq originalUrl url))))
      else h_ret originalUrl) ;;
   shouldUpdate <-
     h_ret (if shouldUpdateAuthorization then HBool true
            else if shouldUpdateCookie then HBool true
            else shouldUpdateUrl) ;;
   if negb (h_truthy shouldUpdate) then h_ret serialized
   else
   serialized <-
     (if h_strict_eq serialized req then h_clone serialized
      else h_ret serialized) ;;
   (if shouldUpdateAuthorization
    then (target <- h_get serialized "headers" ;;
          headers <- h_get serialized "headers" ;;
          authorization <- h_get headers "authorization" ;;
          masked <- call_mask maskAuthorization authorization ;;
          h_set target "authorization" masked)
    else h_ret tt) ;;
   (if shouldUpdateCookie
    then (target <- h_get serialized "headers" ;;
          headers <- h_get serialized "headers" ;;
          cookie <- h_get headers "cookie" ;;
          masked <- call_mask maskCookie cookie ;;
          h_set target "cookie" masked)
    else h_ret tt) ;;
   (if h_truthy shouldUpdateUrl
    then (originalUrl <- h_get req "originalUrl" ;;
          h_set serialized "url" originalUrl)
    else h_ret tt) ;;
   h_ret serialized)%store.

End Serializer.

(** bunyan hands back the request itself when it has no connection. *)
Definition std_identity (req : HVal) : HM HVal := h_ret req.

(** A request and its headers object, as Node builds them. *)
Definition logged_request : Heap :=
  [ [("method", HStr "POST"); ("url", HStr "/proxy"); ("originalUrl", HStr "/proxy");
     ("headers", HRef 1)];
    [("authorization", HStr "Bearer sfihpffpr09r73"); ("cookie", HStr "sid=abc")] ].

(** ** Configuration (config/index.js, lines 34-47) *)

(** [v === s] for a string [s] *)
Definition strict_eq_string (v : JsVal) (s : string) : bool :=
  match v with
  | JStr t => t =? s
  | _ => false
  end.

(** The three predicates, over what [nconf.get('NODE_ENV')] gives. *)
Definition isProduction (NODE_ENV : JsVal) : bool :=
  strict_eq_string NODE_ENV "production".

Definition isLocal (NODE_ENV : JsVal) : bool :=
  strict_eq_string NODE_ENV "local".

Definition isDevelopment (NODE_ENV : JsVal) : bool :=
  strict_eq_string NODE_ENV "development".

(** ** The error middleware (helper/errors.js, lines 86-131) *)

(** What reaches [appErrorHandler]: [err.status] is a number or is not
    set, [err.message] is text or is not set; [err.code] and [err.stack]
    are only passed on. *)
Record HttpError : Type := mkHttpError {
  err_status : option Z;
  err_code : JsVal;
  err_message : option string;
  err_stack : JsVal
}.

(** [req.accepts(['json', 'html'])]: the better match, or [false]. *)
Inductive Accepts : Type :=
| AcceptsJson
| AcceptsHtml
| AcceptsNeither.

(** What the middleware sends. *)
Inductive Reply : Type :=
| ReplyJson (body : JsVal)
| ReplyRedirect (url : string)
| ReplyRender (view : string) (locals : JsVal)
| ReplyText (message : JsVal).

(** [res.status(status)], the line handed to the logger, and the reply. *)
Record ErrorAnswer : Type := mkErrorAnswer {
  answer_status : Z;
  answer_log : string * HttpError * string;
  answer_reply : Reply
}.

Definition string_or_undefined (o : option string) : JsVal :=
  match o with
  | Some s => JStr s
  | None => JUndefined
  end.

(** The text of [x] in [... + x] for text that may not be set. *)
Definition text_of (o : option string) : string :=
  match o with
  | Some s => s
  | None => "undefined"
  end.

(** [a || b] on text that may not be set *)
Definition first_text (a b : option string) : option string :=
  match a with
  | Some s => if s =? EmptyString then b else a
  | None => b
  end.

Section ErrorHandler.

(** Node's table [http.STATUS_CODES], from status code to reason phrase,
    and [querystring.stringify]. *)
Variable STATUS_CODES : Z -> option string.
Variable querystring_stringify : list (string * JsVal) -> string.

(** [http.STATUS_CODES[code]] used as a condition *)
Definition known_status (code : option Z) : bool :=
  match code with
  | Some n =>
      match STATUS_CODES n with
      | Some phrase => negb (phrase =? EmptyString)
      | None => false
      end
  | None => false
  end.

Definition appErrorHandler (NODE_ENV : JsVal) (err : HttpError)
  (accepts : Accepts) (originalUrl : JsVal) : ErrorAnswer :=
  let status :=
    match err_status err with
    | Some n => if known_status (Some n) then n else 500%Z
    | None => 500%Z
    end in
  let isClientError := (400 <=? status)%Z && (status <? 500)%Z in
  let log :=
    if isClientError then ("info", err, "Client error")
    else ("error", err, "Server error") in
  let code := if isClientError then err_code err else JUndefined in
  let message :=
    first_text (if isClientError then err_message err else Some EmptyString)
               (STATUS_CODES status) in
  let stack := if isLocal NODE_ENV then err_stack err else JUndefined in
  let reply :=
    match accepts with
    | AcceptsJson =>
        ReplyJson (JObj [("code", code);
                         ("message", string_or_undefined message);
                         ("stack", stack)])
    | AcceptsHtml =>
        if (status =? 401)%Z then
          ReplyRedirect
            ("/?" ++ querystring_stringify
                       [("login", JBool true); ("redirect", originalUrl)])
        else
          ReplyRender "error"
            (JObj [("title", JStr (string_of_Z status ++ " " ++ text_of message));
                   ("stack", stack);
                   ("isClientError", JBool isClientError)])
    | AcceptsNeither => ReplyText (string_or_undefined message)
    end in
  mkErrorAnswer status log reply.

End ErrorHandler.

(** [status >= 400 && status < 500] *)
Definition is_client_error (status : Z) : bool :=
  (400 <=? status)%Z && (status <? 500)%Z.

(** The part of Node's table the examples use. *)
Definition status_codes_excerpt (code : Z) : option string :=
  if (code =? 200)%Z then Some "OK"
  else if (code =? 400)%Z then Some "Bad Request"
  else if (code =? 401)%Z then Some "Unauthorized"
  else if (code =? 404)%Z then Some "Not Found"
  else if (code =? 500)%Z then Some "Internal Server Error"
  else if (code =? 503)%Z then Some "Service Unavailable"
  else None.

(** [querystring.escape]: every byte but letters, digits and
    [-_.!~*'()] becomes [%XX]. *)
Definition qs_unreserved (c : ascii) : bool :=
  let n := nat_of_ascii c in
  ((48 <=? n) && (n <=? 57))%nat || ((65 <=? n) && (n <=? 90))%nat
  || ((97 <=? n) && (n <=? 122))%nat
  || existsb (Ascii.eqb c) ["-"; "_"; "."; "!"; "~"; "*"; "'"; "("; ")"]%char.

Definition upper_hex_digit (n : nat) : ascii :=
  ascii_of_nat (if (n <? 10)%nat then 48 + n else 55 + n).

Fixpoint qs_escape (s : string) : string :=
  match s with
  | EmptyString => EmptyString
  | String c s' =>
      if qs_unreserved c then String c (qs_escape s')
      else String "%" (String (upper_hex_digit (nat_of_ascii c / 16))
                         (String (upper_hex_digit (nat_of_ascii c mod 16))
                            (qs_escape s')))
  end.

(** [querystring.stringify]: a string, a finite number or a boolean is
    written escaped after its key, an array gives one field per element,
    any other value is written as nothing. *)
Definition qs_primitive (v : JsVal) : string :=
  match v with
  | JStr s => qs_escape s
  | JBool true => "true"
  | JBool false => "false"
  | JNum n =>
      match Number_toString n with
      | Some t => qs_escape t
      | None => EmptyString
      end
  | _ => EmptyString
  end.

Definition node_querystring (fields : list (string * JsVal)) : string :=
  join "&"
    (flat_map (fun kv =>
                 match snd kv with
                 | JArr xs =>
                     map (fun x => qs_escape (fst kv) ++ "=" ++ qs_primitive x) xs
                 | v => [qs_escape (fst kv) ++ "=" ++ qs_primitive v]
                 end) fields).

Definition not_found : HttpError :=
  mkHttpError (Some 404%Z) JUndefined (Some "Not Found")
    (JStr "NotFoundError: Not Found at notFoundHandler").

Definition database_down : HttpError :=
  mkHttpError None (JStr "ECONNREFUSED") (Some "connect ECONNREFUSED 10.0.0.5:5432")
    (JStr "Error: connect ECONNREFUSED at TCPConnectWrap").

Definition unauthorized : HttpError :=
  mkHttpError (Some 401%Z) JUndefined (Some "Unauthorized") JUndefined.

(** ** The logger's set-up (helper/logger.js, lines 16-17 and 33-77) *)

Definition LOG_LEVEL_NAMES : list string :=
  ["trace"; "info"; "debug"; "warn"; "error"; "fatal"].

Definition DEFAULT_LOG_LEVEL : string := "info".

Definition lower_char (c : ascii) : ascii :=
  let n := nat_of_ascii c in
  if ((65 <=? n) && (n <=? 90))%nat then ascii_of_nat (n + 32) else c.

(** [s.toLowerCase()] on the letters A-Z; other bytes stay.  (Outside
    ASCII only U+212A has an ASCII lower case, [k], which is in no level
    name, so the level chosen below is the one the full function gives.) *)
Fixpoint toLowerCase (s : string) : string :=
  match s with
  | EmptyString => EmptyString
  | String c s' => String (lower_char c) (toLowerCase s')
  end.

(** [names.indexOf(x)] *)
Fixpoint indexOf (x : string) (names : list string) : Z :=
  match names with
  | [] => (-1)%Z
  | n :: names' =>
      if n =? x then 0%Z
      else let i := indexOf x names' in
           if (i <? 0)%Z then (-1)%Z else (i + 1)%Z
  end.

(** The two kinds of stream [init] sets up: the console, and Logentries
    with its token and options. *)
Inductive Stream : Type :=
| StdoutStream (level : string)
| LogentriesStream (level : string) (token : JsVal) (secure : bool)
    (bufferSize : Z).

Definition stream_level (s : Stream) : string :=
  match s with
  | StdoutStream level => level
  | LogentriesStream level _ _ _ => level
  end.

(** The [streams] that [init(options)] hands to [bunyan.createLogger];
    [log_level] and [log_token] are [config.get('log:level')] and
    [config.get('log:token')]. *)
Definition init_streams (options log_level log_token : JsVal) :
  Completion (list Stream) :=
  let options := js_or options (JObj []) in
  match js_or (js_or (get_prop options "level") log_level) (JStr EmptyString) with
  | JStr s =>
      let level := toLowerCase s in
      let token := log_token in
      let level :=
        if (indexOf level LOG_LEVEL_NAMES <? 0)%Z then DEFAULT_LOG_LEVEL
        else level in
      let streams := [] in
      let streams :=
        if negb (to_boolean (get_prop options "disableStdout"))
        then (streams ++ [StdoutStream level])%list else streams in
      let streams :=
        if to_boolean token
        then (streams ++ [LogentriesStream level token true 10000])%list
        else streams in
      Normal streams
  | _ => Throw (NotAFunction "toLowerCase")
  end.

(** ** The error serializer (helper/logger.js, lines 354-375) *)

(** What an enumerable property of an error object holds: a value, or a
    function (a method a library put on the error). *)
Inductive Member : Type :=
| MValue (v : JsVal)
| MFunction.

Definition Members := list (string * Member).

(** [err[property]]: the first entry for the key is the property. *)
Fixpoint member_lookup (k : string) (ms : Members) : option Member :=
  match ms with
  | [] => None
  | (k', m) :: ms' => if k' =? k then Some m else member_lookup k ms'
  end.

Section ErrorSerializer.

(** bunyan's standard serializer, which gives a plain object for an error
    with its [name], [message] and enumerable properties (the property
    list of that object is what is kept here), and [util.inspect] with the
    options of line 369. *)
Variable stdSerializeError : string -> string -> Members -> Props.
Variable util_inspect : JsVal -> string.

(** The body of the [for ... in] loop (lines 358-362) for the property
    [property] of the error whose enumerable properties are [members]. *)
Definition copy_property (members : Members) (serialized : Props)
  (entry : string * Member) : Props :=
  let property := fst entry in
  match member_lookup property members with
  | Some (MValue value) =>
      if negb (has_key property serialized)
         && negb (0 <=? indexOf property ["stack"; "cause"])%Z
      then assign property value serialized
      else serialized
  | Some MFunction => serialized
  | None => serialized
  end.

(** What line 369 hands to [util.inspect]: the standard serialization
    after the loop has run over the enumerable properties, in the order
    [for ... in] visits them. *)
Definition inspected (name message : string) (members : Members) : Props :=
  fold_left (copy_property members) members
    (stdSerializeError name message members).

(** [serialize], lines 355-374, for an error object.
    [Object.getOwnPropertyNames] of the plain object [serialized] are its
    keys. *)
Definition serializeError (name message : string) (members : Members) : JsVal :=
  let serialized := inspected name message members in
  if (0 <? Z.of_nat (List.length serialized))%Z
  then JStr (util_inspect (JObj serialized))
  else JObj serialized.

End ErrorSerializer.

(** The last test of line 360, and what the loop takes from the error
    under key [k] when it takes anything. *)
Definition copied (k : string) : bool :=
  negb (0 <=? indexOf k ["stack"; "cause"])%Z.

Definition taken (k : string) (members : Members) : option JsVal :=
  match member_lookup k members with
  | Some (MValue v) => Some v
  | _ => None
  end.

Definition member_value (k : string) (ms : Members) : JsVal :=
  match member_lookup k ms with
  | Some (MValue v) => v
  | _ => JUndefined
  end.

(** bunyan's serializer on an error with a stack, and a flat rendering
    standing in for [util.inspect]. *)
Definition std_error (name message : string) (members : Members) : Props :=
  [("message", JStr message); ("name", JStr name);
   ("stack", JStr (name ++ ": " ++ message ++ " at ..."));
   ("code", member_value "code" members);
   ("signal", member_value "signal" members)].

Definition flat_inspect (v : JsVal) : string :=
  match stringify v with
  | Some t => t
  | None => "undefined"
  end.

(** What got rejects with on a 500, with a method among its properties. *)
Definition upstream_500 : Members :=
  [("statusCode", MValue (JNum 500));
   ("statusMessage", MValue (JStr "Internal Server Error"));
   ("retry", MFunction);
   ("stack", MValue (JStr "leaked"))].

(** ** Shutting down (helper/errors.js, lines 138-310) *)

Definition RETURN_CODE_SERVER_ERROR : Z := 1.
Definition RETURN_CODE_UNCAUGHT_EXCEPTION : Z := 2.
Definition RETURN_CODE_UNHANDLED_REJECTION : Z := 3.
Definition SUICIDE_TIMEOUT_IN_MS : Z := 5 * 1000.

(** The two closures passed as [killer]: [exitWithStatus(status)] and
    [process.kill(process.pid, signal)]. *)
Inductive Killer : Type :=
| ExitWithStatus (status : Z)
| KillWithSignal (signal : string).

(** What [closeServer(server, description)] does when async runs it: the
    line it logs, and either the callback at once or [server.close] with
    the line logged when that is done. *)
Inductive CloseTask : Type :=
| NotStarted (log : string)
| Closing (log : string) (closed_log : string).

(** What the process does to the outside: a line to the logger (level and
    text), [async.auto] started with the two close tasks and the killer
    behind them, a timer, an exit scheduled for the next tick, a signal
    sent to itself, an exception thrown out of a handler, the log files
    reopened; and what Node does when no listener is left: the default
    action of a signal, the end of the process on an uncaught exception. *)
Inductive Effect : Type :=
| Logged (level text : string)
| AsyncAuto (closeServer closeSecureServer : CloseTask) (killer : Killer)
| SetTimeout (ms : Z) (killer : Killer)
| NextTickExit (status : Z)
| ProcessKill (signal : string)
| Threw (e : JsVal)
| ReopenFileStreams
| DefaultAction (signal : string)
| Uncaught.

(** The module's variables: [app], not set or set with its setting
    [isShuttingDown]; [server] and [secureServer], set or not.  Then the
    listeners on [process], and the effects so far. *)
Record Lifecycle : Type := mkLifecycle {
  app_isShuttingDown : option bool;
  server : bool;
  secureServer : bool;
  once_uncaughtException : bool;
  on_unhandledRejection : bool;
  once_signal : list string;
  effects : list Effect
}.

Definition loading : Lifecycle :=
  mkLifecycle None false false false false [] [].

Definition effect (es : list Effect) (st : Lifecycle) : Lifecycle :=
  mkLifecycle (app_isShuttingDown st) (server st) (secureServer st)
    (once_uncaughtException st) (on_unhandledRejection st) (once_signal st)
    (effects st ++ es).

Definition set_shutting_down (b : bool) (st : Lifecycle) : Lifecycle :=
  mkLifecycle (Some b) (server st) (secureServer st)
    (once_uncaughtException st) (on_unhandledRejection st) (once_signal st)
    (effects st).

(** [exitWithStatus], lines 271-276 *)
Definition exitWithStatus (status : Z) : list Effect :=
  [Logged "info" "Exiting process"; NextTickExit status].

(** [killer()] *)
Definition call_killer (k : Killer) : list Effect :=
  match k with
  | ExitWithStatus status => exitWithStatus status
  | KillWithSignal signal => [ProcessKill signal]
  end.

(** [closeServer], lines 151-164 *)
Definition closeServer (started : bool) (description : string) : CloseTask :=
  if negb started then NotStarted (description ++ " not started")
  else Closing ("Closing " ++ toLowerCase description) (description ++ " closed").

(** [gracefulShutdown], lines 138-179 *)
Definition gracefulShutdown (killer : Killer) (st : Lifecycle) : Lifecycle :=
  match app_isShuttingDown st with
  | None => effect (call_killer killer) st
  | Some true =>
      effect [Logged "warn" "Attempt to shut down while already shutting down..."] st
  | Some false =>
      let st := effect [Logged "info" "Shutting down gracefully..."] st in
      let st := set_shutting_down true st in
      let st := effect [AsyncAuto (closeServer (server st) "Server")
                                  (closeServer (secureServer st) "Secure server")
                                  killer] st in
      effect [SetTimeout SUICIDE_TIMEOUT_IN_MS killer] st
  end.

(** The timer's callback [hardShutdown], lines 175-178 *)
Definition hardShutdown (killer : Killer) : list Effect :=
  Logged "info" "Unable to shutdown gracefully" :: call_killer killer.

(** [setServer] and [setSecureServer], lines 184-195 *)
Definition setServer (st : Lifecycle) : Lifecycle :=
  mkLifecycle (app_isShuttingDown st) true (secureServer st)
    (once_uncaughtException st) (on_unhandledRejection st) (once_signal st)
    (effects st).

Definition setSecureServer (st : Lifecycle) : Lifecycle :=
  mkLifecycle (app_isShuttingDown st) (server st) true
    (once_uncaughtException st) (on_unhandledRejection st) (once_signal st)
    (effects st).

(** [gracefulShutdownMiddleware(_app)], lines 209-213: the call itself *)
Definition gracefulShutdownMiddleware (st : Lifecycle) : Lifecycle :=
  set_shutting_down false st.

(** The middleware it returns, lines 214-220: the timeout it sets on the
    connection, if any; it always calls [next]. *)
Definition shutdown_middleware (st : Lifecycle) : option Z :=
  match app_isShuttingDown st with
  | Some true => Some 1%Z
  | _ => None
  end.

(** [serverErrorHandler], lines 229-240 *)
Definition serverErrorHandler (err : JsVal) (st : Lifecycle) : Lifecycle :=
  if is_nullish err then effect [Threw (NotAnObject "code")] st
  else
    let message := "Uncaught server error" in
    let message :=
      if strict_eq_string (get_prop err "code") "EADDRINUSE"
      then message ++ ". Port is in use. There is likely another instance of the server already running."
      else message in
    gracefulShutdown (ExitWithStatus RETURN_CODE_SERVER_ERROR)
      (effect [Logged "fatal" message] st).

(** The listener for [uncaughtException], lines 247-257 *)
Definition uncaughtExceptionHandler (err : JsVal) (st : Lifecycle) : Lifecycle :=
  if is_nullish err then effect [Threw (NotAnObject "code")] st
  else if strict_eq_string (get_prop err "code") "ECONNRESET"
  then effect [Logged "error" "Exception suppressed. Check request logs"] st
  else gracefulShutdown (ExitWithStatus RETURN_CODE_UNCAUGHT_EXCEPTION)
         (effect [Logged "fatal" "Uncaught exception"] st).

(** The listener for [unhandledRejection], lines 259-264 *)
Definition unhandledRejectionHandler (st : Lifecycle) : Lifecycle :=
  gracefulShutdown (ExitWithStatus RETURN_CODE_UNHANDLED_REJECTION)
    (effect [Logged "fatal" "Unhandled rejection"] st).

(** [handleUncaughtExceptions], lines 246-265: [process.once] for the
    first listener, [process.on] for the second *)
Definition handleUncaughtExceptions (st : Lifecycle) : Lifecycle :=
  mkLifecycle (app_isShuttingDown st) (server st) (secureServer st) true true
    (once_signal st) (effects st).

(** The function [killSignalHandler(signal)] returns, lines 288-294 *)
Definition killSignalHandler (signal : string) (st : Lifecycle) : Lifecycle :=
  gracefulShutdown (KillWithSignal signal)
    (effect [Logged "info" "Kill signal received"] st).

(** [handleKillSignals], lines 300-310: [process.once] for each signal *)
Definition handleKillSignals (st : Lifecycle) : Lifecycle :=
  mkLifecycle (app_isShuttingDown st) (server st) (secureServer st)
    (once_uncaughtException st) (on_unhandledRejection st)
    (once_signal st ++ ["SIGUSR2"; "SIGINT"; "SIGTERM"])%list
    (effects st).

(** *** What Node does with the listeners *)

Inductive Incident : Type :=
| Signal (signal : string)
| UncaughtException (err : JsVal)
| UnhandledRejection
| ServerError (err : JsVal).

(** A listener added with [once] is removed before it runs. *)
Definition remove_once_signal (signal : string) (st : Lifecycle) : Lifecycle :=
  mkLifecycle (app_isShuttingDown st) (server st) (secureServer st)
    (once_uncaughtException st) (on_unhandledRejection st)
    (filter (fun s => negb (s =? signal)) (once_signal st))
    (effects st).

Definition remove_once_uncaughtException (st : Lifecycle) : Lifecycle :=
  mkLifecycle (app_isShuttingDown st) (server st) (secureServer st)
    false (on_unhandledRejection st) (once_signal st) (effects st).

(** [process.emit('uncaughtException', err)] *)
Definition emit_uncaughtException (err : JsVal) (st : Lifecycle) : Lifecycle :=
  if once_uncaughtException st
  then uncaughtExceptionHandler err (remove_once_uncaughtException st)
  else effect [Uncaught] st.

(** The listener for SIGHUP that the logger's [init] added with
    [process.on] (helper/logger.js, lines 87-91) when this module loaded
    the logger (line 51): it stays for the life of the process. *)
Definition reopenLogFiles : list Effect :=
  [Logged "info" "Received SIGHUP. Reopening log files.";
   ReopenFileStreams;
   Logged "info" "Reopened log files."].

(** A signal goes to the listener [handleKillSignals] added for it with
    [once], which only SIGUSR2, SIGINT and SIGTERM ever have; SIGHUP goes
    to the logger's listener; any other signal, and a kill signal whose
    listener has served, gets the default action.  An [error] event of
    the server goes to the listener [setServer] attached; emitted with no
    listener it is thrown, and so becomes an uncaught exception, as does
    what the listener throws. *)
Definition deliver (i : Incident) (st : Lifecycle) : Lifecycle :=
  match i with
  | Signal signal =>
      if existsb (String.eqb signal) (once_signal st)
      then killSignalHandler signal (remove_once_signal signal st)
      else if signal =? "SIGHUP" then effect reopenLogFiles st
      else effect [DefaultAction signal] st
  | UncaughtException err => emit_uncaughtException err st
  | UnhandledRejection =>
      if on_unhandledRejection st then unhandledRejectionHandler st else st
  | ServerError err =>
      if server st then
        if is_nullish err
        then emit_uncaughtException (NotAnObject "code") (serverErrorHandler err st)
        else serverErrorHandler err st
      else emit_uncaughtException err st
  end.

Definition deliver_all (incidents : list Incident) (st : Lifecycle) : Lifecycle :=
  fold_left (fun st i => deliver i st) incidents st.

(** The process as server.js sets it up (lines 35-50): the listeners on
    [process], then the middleware, then the listening server. *)
Definition running : Lifecycle :=
  setServer (gracefulShutdownMiddleware (handleKillSignals (handleUncaughtExceptions loading))).

(** The same before the server listens (server.js, lines 35-46). *)
Definition starting : Lifecycle :=
  gracefulShutdownMiddleware (handleKillSignals (handleUncaughtExceptions loading)).

Definition PORT_IN_USE : string :=
  "Uncaught server error. Port is in use. There is likely another instance of the server already running.".

(** The shutdowns started: each [async.auto] with its killer. *)
Fixpoint shutdowns (es : list Effect) : list Killer :=
  match es with
  | [] => []
  | AsyncAuto _ _ k :: es' => k :: shutdowns es'
  | _ :: es' => shutdowns es'
  end.

Fixpoint timers (es : list Effect) : list Killer :=
  match es with
  | [] => []
  | SetTimeout _ k :: es' => k :: timers es'
  | _ :: es' => timers es'
  end.

(** The killer an incident brings to [gracefulShutdown], if it gets that
    far. *)
Definition killer_of (i : Incident) : Killer :=
  match i with
  | Signal signal => KillWithSignal signal
  | UncaughtException _ => ExitWithStatus RETURN_CODE_UNCAUGHT_EXCEPTION
  | UnhandledRejection => ExitWithStatus RETURN_CODE_UNHANDLED_REJECTION
  | ServerError _ => ExitWithStatus RETURN_CODE_SERVER_ERROR
  end.

(** What holds of the process from the moment the middleware is
    installed: every shutdown started has its timer, and one shutdown has
    been started if the app says so and none otherwise. *)
Definition settled (st : Lifecycle) : Prop :=
  timers (effects st) = shutdowns (effects st) /\
  ((app_isShuttingDown st = Some false /\ shutdowns (effects st) = []) \/
   (app_isShuttingDown st = Some true /\ exists k, shutdowns (effects st) = [k])).

Definition connection_reset : JsVal :=
  JError "Error" "read ECONNRESET" [("code", JStr "ECONNRESET")].

Definition address_in_use : JsVal :=
  JError "Error" "listen EADDRINUSE: address already in use :::8088"
    [("code", JStr "EADDRINUSE")].

Definition out_of_luck : JsVal :=
  JError "TypeError" "Cannot read property 'x' of undefined" [].

(** ** Properties of the property lists *)

Lemma lookup_remove_key_eq (k : string) (d : Props) :
  lookup k (remove_key k d) = None.
Proof.
  induction d as [|[k' v] d IH]; simpl; [reflexivity|].
  destruct (k' =? k) eqn:E; simpl; [exact IH|].
  rewrite E. exact IH.
Qed.

Lemma lookup_remove_key_ne (k k' : string) (d : Props) :
  k <> k' -> lookup k' (remove_key k d) = lookup k' d.
Proof.
  intros Hne.
  induction d as [|[k0 v] d IH]; simpl; [reflexivity|].
  destruct (k0 =? k) eqn:E.
  - apply String.eqb_eq in E. subst k0.
    destruct (k =? k') eqn:E'; [apply String.eqb_eq in E'; contradiction|exact IH].
  - simpl. destruct (k0 =? k'); [reflexivity|exact IH].
Qed.

Lemma lookup_assign_eq (k : string) (v : JsVal) (d : Props) :
  lookup k (assign k v d) = Some v.
Proof.
  induction d as [|[k' v'] d IH]; simpl.
  - rewrite String.eqb_refl. reflexivity.
  - destruct (k' =? k) eqn:E; simpl.
    + rewrite String.eqb_refl. reflexivity.
    + rewrite E. exact IH.
Qed.

Lemma lookup_assign_ne (k k' : string) (v : JsVal) (d : Props) :
  k <> k' -> lookup k' (assign k v d) = lookup k' d.
Proof.
  intros Hne.
  assert (Hk : (k =? k') = false) by (apply String.eqb_neq; exact Hne).
  induction d as [|[k0 v0] d IH]; simpl.
  - rewrite Hk. reflexivity.
  - destruct (k0 =? k) eqn:E; simpl.
    + apply String.eqb_eq in E. subst k0. rewrite Hk. reflexivity.
    + destruct (k0 =? k'); [reflexivity|exact IH].
Qed.

(** ** Properties of the handler *)

Section Properties.

Variable got : JsVal -> JsVal -> Promise Response.
Variable JSON_parse : string -> option JsVal.

Local Abbreviation handle := (run got JSON_parse).

Ltac simp :=
  cbv beta iota delta
    [bind ret throw read emit member set_req_body res_status res_json
     then_ then_null js_or is_nullish fst snd
     req_params req_query req_body res_statusCode res_sent events];
  cbn [to_boolean get_prop or_undefined negb app outbound].

Ltac unfold_handler :=
  unfold returned, sent, calls, run, proxy_handler, copy_if_truthy,
    req_body_member, call_got, call_JSON_parse, logger_info, logger_error,
    incoming;
  simp.

(** Case analysis on how the call of got settles and on what JSON.parse
    makes of the response. *)
Ltac settle :=
  let response := fresh "response" in
  let err := fresh "err" in
  match goal with
  | |- context [got ?a ?o] => destruct (got a o) as [response|err|]
  end; simp;
  [ destruct (JSON_parse (body response)); simp; auto
  | destruct err; simp; auto
  | auto ].

Lemma truthy_given (d : Props) (k : string) :
  to_boolean (or_undefined (lookup k d)) = true -> exists v, given d k v.
Proof.
  destruct (lookup k d) as [v|] eqn:E; simpl; intros T.
  - exists v. split; [exact E|exact T].
  - discriminate.
Qed.

Lemma absent_or_empty_falsy (d : Props) (k : string) :
  absent_or_empty d k -> to_boolean (or_undefined (lookup k d)) = false.
Proof. intros [H|H]; rewrite H; reflexivity. Qed.

(** The first guard (lines 20-24). *)
Lemma rejects_url (params query : JsVal) (d : Props) :
  to_boolean (or_undefined (lookup "url" d)) = false ->
  returned (handle params query (JObj d)) = Normal ReturnRes /\
  sent (handle params query (JObj d)) = Some (400%Z, missing "url") /\
  calls (handle params query (JObj d)) = [] /\
  req_body (snd (handle params query (JObj d))) = JObj d.
Proof.
  intros T. unfold_handler. rewrite T. simp. auto.
Qed.

(** The second guard (lines 26-30). *)
Lemma rejects_method (params query : JsVal) (d : Props) :
  to_boolean (or_undefined (lookup "url" d)) = true ->
  to_boolean (or_undefined (lookup "method" d)) = false ->
  returned (handle params query (JObj d)) = Normal ReturnRes /\
  sent (handle params query (JObj d)) = Some (400%Z, missing "method") /\
  calls (handle params query (JObj d)) = [] /\
  req_body (snd (handle params query (JObj d))) = JObj d.
Proof.
  intros Tu Tm. unfold_handler. rewrite Tu. simp. rewrite Tm. simp. auto.
Qed.

(** How a valid descriptor is forwarded (lines 31-61): one call of got
    with [options_of d], and an answer decided by how that call settles;
    no answer while it does not. *)
Lemma forwards (params query : JsVal) (d : Props) (u m : JsVal) :
  given d "url" u -> given d "method" m ->
  calls (handle params query (JObj d)) = [(u, options_of d)] /\
  req_body (snd (handle params query (JObj d))) = JObj d /\
  match got u (options_of d) with
  | Fulfilled response =>
      match JSON_parse (body response) with
      | Some v =>
          returned (handle params query (JObj d))
            = Normal (ReturnPromise (Fulfilled RUndefined)) /\
          sent (handle params query (JObj d)) = Some (200%Z, v)
      | None =>
          returned (handle params query (JObj d))
            = Normal (ReturnPromise (Fulfilled RRes)) /\
          sent (handle params query (JObj d))
            = Some (400%Z, JObj [("err", SyntaxError)])
      end
  | Rejected err =>
      if is_nullish err
      then returned (handle params query (JObj d))
             = Normal (ReturnPromise (Rejected (TypeError err "statusCode"))) /\
           sent (handle params query (JObj d)) = None
      else returned (handle params query (JObj d))
             = Normal (ReturnPromise (Fulfilled RRes)) /\
           sent (handle params query (JObj d)) = Some (400%Z, JObj [("err", err)])
  | Pending =>
      returned (handle params query (JObj d)) = Normal (ReturnPromise Pending) /\
      sent (handle params query (JObj d)) = None
  end.
Proof.
  intros [Hu Tu] [Hm Tm].
  unfold options_of, add_if_truthy.
  unfold_handler. rewrite Hu. simp. rewrite Tu. simp.
  rewrite Hm. simp. rewrite Tm. simp. rewrite Hm. simp.
  destruct (to_boolean (or_undefined (lookup "body" d))); simp;
  destruct (to_boolean (or_undefined (lookup "timeout" d))); simp;
  destruct (to_boolean (or_undefined (lookup "retries" d))); simp;
  destruct (to_boolean (or_undefined (lookup "headers" d))); simp;
  rewrite ?Hu; simp; settle.
Qed.

(** *** The options object *)

Lemma options_of_bare (d : Props) :
  lookup "body" d = None -> lookup "timeout" d = None ->
  lookup "retries" d = None -> lookup "headers" d = None ->
  options_of d = JObj [("method", or_undefined (lookup "method" d))].
Proof.
  intros Hb Ht Hr Hh. unfold options_of, add_if_truthy.
  rewrite Hb, Ht, Hr, Hh. reflexivity.
Qed.

Ltac split_fields d :=
  destruct (to_boolean (or_undefined (lookup "body" d)));
  destruct (to_boolean (or_undefined (lookup "timeout" d)));
  destruct (to_boolean (or_undefined (lookup "retries" d)));
  destruct (to_boolean (or_undefined (lookup "headers" d))).

Lemma options_of_truthy (d : Props) (k : string) (v : JsVal) :
  In k optional_fields -> given d k v ->
  get_prop (options_of d) k = if k =? "body" then JSON_stringify v else v.
Proof.
  intros Hk [Hv Tv]. unfold options_of, add_if_truthy.
  simpl in Hk.
  destruct Hk as [<-|[<-|[<-|[<-|[]]]]]; rewrite Hv; cbn [or_undefined];
    rewrite Tv; split_fields d; reflexivity.
Qed.

Lemma options_of_falsy (d : Props) (k : string) :
  In k optional_fields -> to_boolean (or_undefined (lookup k d)) = false ->
  get_prop (options_of d) k = JUndefined.
Proof.
  intros Hk T. unfold options_of, add_if_truthy.
  simpl in Hk.
  destruct Hk as [<-|[<-|[<-|[<-|[]]]]]; rewrite T; split_fields d; reflexivity.
Qed.

Lemma add_if_truthy_remove_key (d : Props) (k k' : string) (f : JsVal -> JsVal)
  (o : JsVal) :
  to_boolean (or_undefined (lookup k d)) = false ->
  add_if_truthy (remove_key k d) k' f o = add_if_truthy d k' f o.
Proof.
  intros T. unfold add_if_truthy.
  destruct (String.eqb_spec k k') as [<-|Hne].
  - rewrite lookup_remove_key_eq, T. reflexivity.
  - rewrite lookup_remove_key_ne by exact Hne. reflexivity.
Qed.

Lemma options_of_remove_key (d : Props) (k : string) :
  In k optional_fields -> to_boolean (or_undefined (lookup k d)) = false ->
  options_of (remove_key k d) = options_of d.
Proof.
  intros Hk T. unfold options_of.
  rewrite !add_if_truthy_remove_key by exact T.
  rewrite lookup_remove_key_ne; [reflexivity|].
  simpl in Hk. destruct Hk as [<-|[<-|[<-|[<-|[]]]]]; discriminate.
Qed.

(** ** The claims *)

(** C1: a descriptor whose [url] is absent or empty, and a descriptor with
    a [url] whose [method] is absent or empty, is answered at once with
    status 400 and the body [{message: '"url" is missing.'}] or
    [{message: '"method" is missing.'}], naming the field, and got is never
    called; the empty descriptor [{}] gets the [url] answer. *)
Theorem C1_missing_field_answered_400 (params query : JsVal) (d : Props) :
  (absent_or_empty d "url" ->
   returned (handle params query (JObj d)) = Normal ReturnRes /\
   sent (handle params query (JObj d)) = Some (400%Z, missing "url") /\
   calls (handle params query (JObj d)) = []) /\
  (forall u, given d "url" u -> absent_or_empty d "method" ->
   returned (handle params query (JObj d)) = Normal ReturnRes /\
   sent (handle params query (JObj d)) = Some (400%Z, missing "method") /\
   calls (handle params query (JObj d)) = []) /\
  (sent (handle params query (JObj [])) = Some (400%Z, missing "url") /\
   calls (handle params query (JObj [])) = []).
Proof.
  split; [|split].
  - intros H. apply absent_or_empty_falsy in H.
    destruct (rejects_url params query d H) as (R & S & C & _). auto.
  - intros u [Hu Tu] H. apply absent_or_empty_falsy in H.
    assert (T : to_boolean (or_undefined (lookup "url" d)) = true)
      by (rewrite Hu; exact Tu).
    destruct (rejects_method params query d T H) as (R & S & C & _). auto.
  - destruct (rejects_url params query [] eq_refl) as (_ & S & C & _). auto.
Qed.

(** C2: for a descriptor with non-empty [url] and [method], when the call
    of got is fulfilled and the text of the response body is JSON, the
    answer is status 200 with the value JSON.parse gives for that text. *)
Theorem C2_success_returns_parsed_body (params query : JsVal) (d : Props)
  (u m o : JsVal) (response : Response) (v : JsVal) :
  given d "url" u -> given d "method" m ->
  calls (handle params query (JObj d)) = [(u, o)] ->
  got u o = Fulfilled response ->
  JSON_parse (body response) = Some v ->
  returned (handle params query (JObj d))
    = Normal (ReturnPromise (Fulfilled RUndefined)) /\
  sent (handle params query (JObj d)) = Some (200%Z, v).
Proof.
  intros Hu Hm Hc Hg Hp.
  destruct (forwards params query d u m Hu Hm) as (C & _ & S).
  rewrite C in Hc. injection Hc as <-.
  rewrite Hg, Hp in S. exact S.
Qed.

(** C3: for a descriptor with non-empty [url] and [method], when the call
    of got is rejected with an error, the answer is status 400 with the
    body [{err: error}], which carries the error's [statusCode] when it has
    one; the handler returns normally and the promise it returns is
    fulfilled, so nothing is thrown uncaught. *)
Theorem C3_upstream_failure_answered_400 (params query : JsVal) (d : Props)
  (u m o err : JsVal) :
  given d "url" u -> given d "method" m ->
  calls (handle params query (JObj d)) = [(u, o)] ->
  got u o = Rejected err ->
  is_nullish err = false ->
  returned (handle params query (JObj d))
    = Normal (ReturnPromise (Fulfilled RRes)) /\
  sent (handle params query (JObj d)) = Some (400%Z, JObj [("err", err)]) /\
  get_prop (get_prop (JObj [("err", err)]) "err") "statusCode"
    = get_prop err "statusCode".
Proof.
  intros Hu Hm Hc Hg Hn.
  destruct (forwards params query d u m Hu Hm) as (C & _ & S).
  rewrite C in Hc. injection Hc as <-.
  rewrite Hg, Hn in S. destruct S as [R S].
  repeat split; [exact R|exact S].
Qed.

(** C4: for a descriptor with non-empty [url] and [method], when the call
    of got is fulfilled but the text of the response body is not JSON, the
    SyntaxError JSON.parse throws reaches the rejection handler of the
    chain and is answered with status 400 and the body [{err: error}]; the
    promise the handler returns is fulfilled. *)
Theorem C4_malformed_response_answered_400 (params query : JsVal) (d : Props)
  (u m o : JsVal) (response : Response) :
  given d "url" u -> given d "method" m ->
  calls (handle params query (JObj d)) = [(u, o)] ->
  got u o = Fulfilled response ->
  JSON_parse (body response) = None ->
  returned (handle params query (JObj d))
    = Normal (ReturnPromise (Fulfilled RRes)) /\
  sent (handle params query (JObj d))
    = Some (400%Z, JObj [("err", SyntaxError)]).
Proof.
  intros Hu Hm Hc Hg Hp.
  destruct (forwards params query d u m Hu Hm) as (C & _ & S).
  rewrite C in Hc. injection Hc as <-.
  rewrite Hg, Hp in S. exact S.
Qed.

(** C5: for a descriptor in which [body], [timeout], [retries] and
    [headers] are all absent, the options object handed to got has the
    [method] key and no other. *)
Theorem C5_absent_fields_leave_defaults (params query : JsVal) (d : Props)
  (u m : JsVal) :
  given d "url" u -> given d "method" m ->
  lookup "body" d = None -> lookup "timeout" d = None ->
  lookup "retries" d = None -> lookup "headers" d = None ->
  calls (handle params query (JObj d)) = [(u, JObj [("method", m)])].
Proof.
  intros Hu Hm Hb Ht Hr Hh.
  destruct (forwards params query d u m Hu Hm) as (C & _).
  rewrite C, (options_of_bare d Hb Ht Hr Hh).
  destruct Hm as [Hm _]. rewrite Hm. reflexivity.
Qed.

(** C6, at the failing input: in the descriptor
    [{url: "http://x/ok", method: "POST", body: false}] the field [body]
    is present and its JSON text is [false], yet the options object handed
    to got is [{method: "POST"}]: it has no [body]. *)
Theorem C6_body_false_not_forwarded (params query : JsVal) :
  has_key "body" post_false = true /\
  JSON_stringify (JBool false) = JStr "false" /\
  calls (handle params query (JObj post_false))
    = [(JStr "http://x/ok", JObj [("method", JStr "POST")])] /\
  get_prop (JObj [("method", JStr "POST")]) "body" = JUndefined.
Proof.
  split; [reflexivity|]. split; [reflexivity|]. split; [|reflexivity].
  destruct (forwards params query post_false (JStr "http://x/ok") (JStr "POST"))
    as (C & _); [split; reflexivity|split; reflexivity|exact C].
Qed.

(** X30: Each optional field that is present with a truthy value is translated
    into the option of the same name of the call of got: [body] becomes
    its JSON.stringify text, [timeout], [retries] and [headers] are passed
    unchanged; and a descriptor with non-empty [url] and [method] does
    lead to one such call. *)
Theorem truthy_fields_translated (params query : JsVal) (d : Props) :
  (forall u m, given d "url" u -> given d "method" m ->
     exists o, calls (handle params query (JObj d)) = [(u, o)]) /\
  (forall u o, In (u, o) (calls (handle params query (JObj d))) ->
     (forall v, given d "body" v -> get_prop o "body" = JSON_stringify v) /\
     (forall k v, In k ["timeout"; "retries"; "headers"] -> given d k v ->
                  get_prop o k = v)).
Proof.
  split.
  - intros u m Hu Hm.
    destruct (forwards params query d u m Hu Hm) as (C & _).
    exists (options_of d). exact C.
  - intros u o Hin.
    assert (E : o = options_of d).
    { destruct (to_boolean (or_undefined (lookup "url" d))) eqn:Tu.
      - destruct (to_boolean (or_undefined (lookup "method" d))) eqn:Tm.
        + destruct (truthy_given d "url" Tu) as [u' Hu].
          destruct (truthy_given d "method" Tm) as [m Hm].
          destruct (forwards params query d u' m Hu Hm) as (C & _).
          rewrite C in Hin. destruct Hin as [E|[]].
          injection E as _ <-. reflexivity.
        + destruct (rejects_method params query d Tu Tm) as (_ & _ & C & _).
          rewrite C in Hin. destruct Hin.
      - destruct (rejects_url params query d Tu) as (_ & _ & C & _).
        rewrite C in Hin. destruct Hin. }
    subst o. split.
    + intros v Hv.
      rewrite (options_of_truthy d "body" v); [reflexivity| |exact Hv].
      simpl. auto.
    + intros k v Hk Hv.
      rewrite (options_of_truthy d k v); [| |exact Hv].
      * simpl in Hk. destruct Hk as [<-|[<-|[<-|[]]]]; reflexivity.
      * simpl in Hk |- *. tauto.
Qed.

(** C7, at the failing input: for the descriptor
    [{url: "http://x/ok", method: "GET", retries: 0}] the options object
    handed to got is [{method: "GET"}]: it has no [retries]. *)
Theorem C7_retries_zero_not_forwarded (params query : JsVal) :
  calls (handle params query
           (JObj [("url", JStr "http://x/ok"); ("method", JStr "GET");
                  ("retries", JNum 0)]))
  = [(JStr "http://x/ok", JObj [("method", JStr "GET")])] /\
  get_prop (JObj [("method", JStr "GET")]) "retries" = JUndefined.
Proof.
  split; [|reflexivity].
  match goal with
  | |- calls (handle _ _ (JObj ?d)) = _ =>
      destruct (forwards params query d (JStr "http://x/ok") (JStr "GET"))
        as (C & _)
  end; [split; reflexivity|split; reflexivity|exact C].
Qed.

(** C8: the handler leaves the descriptor as it found it: on every path
    (a missing field, an answer from upstream, a failure) [req.body] is the
    same object with the same fields when the handler is done. *)
Theorem C8_descriptor_not_mutated (params query : JsVal) (d : Props) :
  req_body (snd (handle params query (JObj d))) = JObj d /\
  (forall k, get_prop (req_body (snd (handle params query (JObj d)))) k
             = get_prop (JObj d) k).
Proof.
  assert (H : req_body (snd (handle params query (JObj d))) = JObj d).
  { destruct (to_boolean (or_undefined (lookup "url" d))) eqn:Tu.
    - destruct (to_boolean (or_undefined (lookup "method" d))) eqn:Tm.
      + destruct (truthy_given d "url" Tu) as [u Hu].
        destruct (truthy_given d "method" Tm) as [m Hm].
        destruct (forwards params query d u m Hu Hm) as (_ & B & _). exact B.
      + destruct (rejects_method params query d Tu Tm) as (_ & _ & _ & B). exact B.
    - destruct (rejects_url params query d Tu) as (_ & _ & _ & B). exact B. }
  split; [exact H|]. intros k. rewrite H. reflexivity.
Qed.

(** C9: an optional field ([body], [timeout], [retries] or [headers]) that
    is present with a falsy value (0, false, the empty string, null) is
    left out of the options: the handler returns, answers and calls got
    exactly as for the descriptor without the field. *)
Theorem C9_falsy_field_as_absent (params query : JsVal) (d : Props)
  (k : string) (v : JsVal) :
  In k optional_fields -> lookup k d = Some v -> to_boolean v = false ->
  returned (handle params query (JObj d))
    = returned (handle params query (JObj (remove_key k d))) /\
  sent (handle params query (JObj d))
    = sent (handle params query (JObj (remove_key k d))) /\
  calls (handle params query (JObj d))
    = calls (handle params query (JObj (remove_key k d))) /\
  (forall u o, In (u, o) (calls (handle params query (JObj d))) ->
               get_prop o k = JUndefined).
Proof.
  intros Hk Hv Tv.
  assert (T : to_boolean (or_undefined (lookup k d)) = false)
    by (rewrite Hv; exact Tv).
  assert (Nu : k <> "url")
    by (simpl in Hk; destruct Hk as [<-|[<-|[<-|[<-|[]]]]]; discriminate).
  assert (Nm : k <> "method")
    by (simpl in Hk; destruct Hk as [<-|[<-|[<-|[<-|[]]]]]; discriminate).
  pose proof (lookup_remove_key_ne k "url" d Nu) as Eu.
  pose proof (lookup_remove_key_ne k "method" d Nm) as Em.
  pose proof (options_of_remove_key d k Hk T) as Eo.
  destruct (to_boolean (or_undefined (lookup "url" d))) eqn:Tu.
  - destruct (to_boolean (or_undefined (lookup "method" d))) eqn:Tm.
    + destruct (truthy_given d "url" Tu) as [u Hu].
      destruct (truthy_given d "method" Tm) as [m Hm].
      assert (Hu' : given (remove_key k d) "url" u)
        by (destruct Hu; split; [rewrite Eu|]; assumption).
      assert (Hm' : given (remove_key k d) "method" m)
        by (destruct Hm; split; [rewrite Em|]; assumption).
      destruct (forwards params query d u m Hu Hm) as (C & _ & S).
      destruct (forwards params query _ u m Hu' Hm') as (C' & _ & S').
      rewrite Eo in C', S'.
      assert (L : forall u0 o0, In (u0, o0) (calls (handle params query (JObj d))) ->
                                get_prop o0 k = JUndefined).
      { intros u0 o0 Hin. rewrite C in Hin. destruct Hin as [E|[]].
        injection E as _ <-. apply options_of_falsy; assumption. }
      split; [|split; [|split; [|exact L]]]; rewrite ?C, ?C'; try reflexivity;
        destruct (got u (options_of d)) as [response|err|];
        [ destruct (JSON_parse (body response))
        | destruct (is_nullish err)
        |
        | destruct (JSON_parse (body response))
        | destruct (is_nullish err)
        | ];
        destruct S as [R1 S1]; destruct S' as [R2 S2]; congruence.
    + destruct (rejects_method params query d Tu Tm) as (-> & -> & C & _).
      rewrite <- Eu in Tu. rewrite <- Em in Tm.
      destruct (rejects_method params query _ Tu Tm) as (-> & -> & -> & _).
      rewrite C. repeat split. intros u o [].
  - destruct (rejects_url params query d Tu) as (-> & -> & C & _).
    rewrite <- Eu in Tu.
    destruct (rejects_url params query _ Tu) as (-> & -> & -> & _).
    rewrite C. repeat split. intros u o [].
Qed.

(** C10: when the request carries no parsed body ([req.body] is
    [undefined] or another falsy value), the handler puts an empty object
    in its place and answers 400 for the missing [url]; it reads no
    property of [undefined] and throws nothing. *)
Theorem C10_no_body_answered_400 (params query b : JsVal) :
  to_boolean b = false ->
  returned (handle params query b) = Normal ReturnRes /\
  sent (handle params query b) = Some (400%Z, missing "url") /\
  calls (handle params query b) = [] /\
  req_body (snd (handle params query b)) = JObj [].
Proof.
  intros T. unfold_handler. rewrite T. simp. auto.
Qed.

(** ** The handler on any request body *)

Ltac simpb :=
  cbv beta iota delta
    [bind ret throw read emit member set_req_body res_status res_json
     then_ then_null js_or fst snd
     req_params req_query req_body res_statusCode res_sent events];
  cbn [negb app outbound].

Ltac unfold_handler_b :=
  unfold returned, sent, calls, run, proxy_handler, copy_if_truthy,
    req_body_member, call_got, call_JSON_parse, logger_info, logger_error,
    incoming;
  simpb.

Ltac go N := repeat (rewrite N; simpb).

Ltac settle_b N :=
  let response := fresh "response" in
  let err := fresh "err" in
  match goal with
  | |- context [got ?a ?o] => destruct (got a o) as [response|err|]
  end; simpb;
  [ destruct (JSON_parse (body response)); simpb; go N; auto
  | go N; destruct (is_nullish err); simpb; auto
  | auto ].

Lemma truthy_not_nullish (v : JsVal) : to_boolean v = true -> is_nullish v = false.
Proof. destruct v; simpl; intros H; try reflexivity; discriminate. Qed.

(** What the handler does with a truthy body, path by path: what it
    returns, what it answers, and every effect in order. *)
Lemma handles (params query b : JsVal) :
  to_boolean b = true ->
  req_body (snd (handle params query b)) = b /\
  if to_boolean (get_prop b "url") then
    if to_boolean (get_prop b "method") then
      match got (get_prop b "url") (options_for b) with
      | Fulfilled response =>
          match JSON_parse (body response) with
          | Some v =>
              returned (handle params query b)
                = Normal (ReturnPromise (Fulfilled RUndefined)) /\
              sent (handle params query b) = Some (200%Z, v) /\
              events (snd (handle params query b))
                = [received params query b;
                   proxy_calling (get_prop b "url") (options_for b);
                   Got (get_prop b "url") (options_for b)]
          | None =>
              returned (handle params query b)
                = Normal (ReturnPromise (Fulfilled RRes)) /\
              sent (handle params query b)
                = Some (400%Z, JObj [("err", SyntaxError)]) /\
              events (snd (handle params query b))
                = [received params query b;
                   proxy_calling (get_prop b "url") (options_for b);
                   Got (get_prop b "url") (options_for b);
                   proxy_request_error (get_prop b "url") SyntaxError]
          end
      | Rejected err =>
          if is_nullish err then
            returned (handle params query b)
              = Normal (ReturnPromise (Rejected (TypeError err "statusCode"))) /\
            sent (handle params query b) = None /\
            events (snd (handle params query b))
              = [received params query b;
                 proxy_calling (get_prop b "url") (options_for b);
                 Got (get_prop b "url") (options_for b)]
          else
            returned (handle params query b)
              = Normal (ReturnPromise (Fulfilled RRes)) /\
            sent (handle params query b) = Some (400%Z, JObj [("err", err)]) /\
            events (snd (handle params query b))
              = [received params query b;
                 proxy_calling (get_prop b "url") (options_for b);
                 Got (get_prop b "url") (options_for b);
                 proxy_request_error (get_prop b "url") err]
      | Pending =>
          returned (handle params query b) = Normal (ReturnPromise Pending) /\
          sent (handle params query b) = None /\
          events (snd (handle params query b))
            = [received params query b;
               proxy_calling (get_prop b "url") (options_for b);
               Got (get_prop b "url") (options_for b)]
      end
    else
      returned (handle params query b) = Normal ReturnRes /\
      sent (handle params query b) = Some (400%Z, missing "method") /\
      events (snd (handle params query b)) = [received params query b]
  else
    returned (handle params query b) = Normal ReturnRes /\
    sent (handle params query b) = Some (400%Z, missing "url") /\
    events (snd (handle params query b)) = [received params query b].
Proof.
  intros T. pose proof (truthy_not_nullish b T) as N.
  unfold options_for, add_if_truthy_prop, received, proxy_calling,
    proxy_request_error.
  unfold_handler_b. rewrite T. simpb. go N.
  destruct (to_boolean (get_prop b "url")); simpb; [go N|auto].
  destruct (to_boolean (get_prop b "method")); simpb; [go N|auto].
  destruct (to_boolean (get_prop b "body")); simpb; go N;
  destruct (to_boolean (get_prop b "timeout")); simpb; go N;
  destruct (to_boolean (get_prop b "retries")); simpb; go N;
  destruct (to_boolean (get_prop b "headers")); simpb; go N;
  settle_b N.
Qed.

(** The same for a body that is not truthy: [{}] takes its place. *)
Lemma handles_no_body (params query b : JsVal) :
  to_boolean b = false ->
  returned (handle params query b) = Normal ReturnRes /\
  sent (handle params query b) = Some (400%Z, missing "url") /\
  events (snd (handle params query b)) = [received params query b] /\
  req_body (snd (handle params query b)) = JObj [].
Proof.
  intros T. unfold received. unfold_handler. rewrite T. simp. auto.
Qed.

Lemma falsy_body_no_url (b : JsVal) :
  to_boolean b = false -> get_prop b "url" = JUndefined.
Proof.
  destruct b; simpl; intros T; try reflexivity; discriminate.
Qed.

(** *** The options object, for any body *)

Lemma options_for_method (b : JsVal) :
  get_prop (options_for b) "method" = get_prop b "method".
Proof.
  unfold options_for, add_if_truthy_prop.
  destruct (to_boolean (get_prop b "body"));
  destruct (to_boolean (get_prop b "timeout"));
  destruct (to_boolean (get_prop b "retries"));
  destruct (to_boolean (get_prop b "headers")); reflexivity.
Qed.

Lemma options_for_field (b : JsVal) (k : string) :
  In k optional_fields ->
  get_prop (options_for b) k
  = if to_boolean (get_prop b k)
    then (if k =? "body" then JSON_stringify (get_prop b k) else get_prop b k)
    else JUndefined.
Proof.
  intros Hk. simpl in Hk. unfold options_for, add_if_truthy_prop.
  destruct Hk as [<-|[<-|[<-|[<-|[]]]]];
  destruct (to_boolean (get_prop b "body"));
  destruct (to_boolean (get_prop b "timeout"));
  destruct (to_boolean (get_prop b "retries"));
  destruct (to_boolean (get_prop b "headers")); reflexivity.
Qed.

Lemma options_for_other (b : JsVal) (k : string) :
  ~ In k option_keys -> get_prop (options_for b) k = JUndefined.
Proof.
  intros Hk. simpl in Hk.
  assert (Em : ("method" =? k) = false) by (apply String.eqb_neq; tauto).
  assert (Eb : ("body" =? k) = false) by (apply String.eqb_neq; tauto).
  assert (Et : ("timeout" =? k) = false) by (apply String.eqb_neq; tauto).
  assert (Er : ("retries" =? k) = false) by (apply String.eqb_neq; tauto).
  assert (Eh : ("headers" =? k) = false) by (apply String.eqb_neq; tauto).
  unfold options_for, add_if_truthy_prop.
  destruct (to_boolean (get_prop b "body"));
  destruct (to_boolean (get_prop b "timeout"));
  destruct (to_boolean (get_prop b "retries"));
  destruct (to_boolean (get_prop b "headers"));
  cbn [set_prop assign String.eqb Ascii.eqb Bool.eqb];
  cbn [get_prop lookup]; rewrite ?Em, ?Eb, ?Et, ?Er, ?Eh; reflexivity.
Qed.

Lemma stringify_defined (v : JsVal) :
  v <> JUndefined -> exists t, JSON_stringify v = JStr t.
Proof.
  intros Hv. unfold JSON_stringify.
  destruct v as [| |[|]| | | | |]; try contradiction; simpl; eexists; reflexivity.
Qed.

(** *** More on the handler *)

Lemma calls_spec (params query b : JsVal) :
  calls (handle params query b)
  = if to_boolean (get_prop b "url") && to_boolean (get_prop b "method")
    then [(get_prop b "url", options_for b)]
    else [].
Proof.
  unfold calls.
  destruct (to_boolean b) eqn:T.
  - destruct (handles params query b T) as [_ H].
    destruct (to_boolean (get_prop b "url")); simpl;
      [|destruct H as (_ & _ & ->); reflexivity].
    destruct (to_boolean (get_prop b "method")); simpl;
      [|destruct H as (_ & _ & ->); reflexivity].
    destruct (got (get_prop b "url") (options_for b)) as [response|err|].
    + destruct (JSON_parse (body response)); destruct H as (_ & _ & ->); reflexivity.
    + destruct (is_nullish err); destruct H as (_ & _ & ->); reflexivity.
    + destruct H as (_ & _ & ->). reflexivity.
  - destruct (handles_no_body params query b T) as (_ & _ & -> & _).
    rewrite (falsy_body_no_url b T). reflexivity.
Qed.

Lemma calls_inv (params query b u o : JsVal) :
  In (u, o) (calls (handle params query b)) ->
  u = get_prop b "url" /\ o = options_for b /\
  to_boolean (get_prop b "url") = true /\
  to_boolean (get_prop b "method") = true.
Proof.
  rewrite calls_spec.
  destruct (to_boolean (get_prop b "url")); simpl; [|intros []].
  destruct (to_boolean (get_prop b "method")); simpl; [|intros []].
  intros [E|[]]. injection E as <- <-. auto.
Qed.

(** X1: Whatever the request body is (an object, an array, nothing at all),
    the handler calls got at most once, and it calls it exactly when the
    body's [url] and [method] are both truthy. *)
Theorem proxy_calls_got_at_most_once (params query b : JsVal) :
  (List.length (calls (handle params query b)) <= 1)%nat /\
  (calls (handle params query b) <> [] <->
   to_boolean (get_prop b "url") = true /\
   to_boolean (get_prop b "method") = true).
Proof.
  rewrite calls_spec.
  destruct (to_boolean (get_prop b "url"));
  destruct (to_boolean (get_prop b "method")); simpl;
    (split; [lia|split; [intros H; try (exfalso; apply H; reflexivity); auto
                        |intros [H1 H2]; try discriminate]]).
Qed.

(** What the handler leaves behind when it calls got: the line it logged
    on arrival, the line with the url and the options, and the call,
    before anything else. *)
Lemma events_of_call (params query b u o : JsVal) :
  In (u, o) (calls (handle params query b)) ->
  exists later,
    events (snd (handle params query b))
    = received params query b :: proxy_calling u o :: Got u o :: later.
Proof.
  intros Hin. destruct (calls_inv _ _ _ _ _ Hin) as (-> & -> & Tu & Tm).
  assert (T : to_boolean b = true).
  { destruct (to_boolean b) eqn:T; [reflexivity|].
    rewrite (falsy_body_no_url b T) in Tu. discriminate. }
  destruct (handles params query b T) as [_ H].
  rewrite Tu, Tm in H.
  destruct (got (get_prop b "url") (options_for b)) as [response|err|].
  - destruct (JSON_parse (body response)); destruct H as (_ & _ & ->); eauto.
  - destruct (is_nullish err); destruct H as (_ & _ & ->); eauto.
  - destruct H as (_ & _ & ->). eauto.
Qed.

(** X2: The handler always returns normally.  A request is answered exactly
    once, with status 200 or 400 and no other, provided the call of got,
    if one is made, settles (and got rejects with error objects only).
    When that call never settles the request is never answered and the
    promise the handler returns stays pending: and the call has a
    [timeout] option only if the caller supplied one. *)
Theorem proxy_answers_unless_pending (params query b : JsVal) :
  (forall u o e, got u o = Rejected e -> is_nullish e = false) ->
  (exists ret : Returned, returned (handle params query b) = Normal ret) /\
  ((forall u o, In (u, o) (calls (handle params query b)) -> got u o <> Pending) ->
   exists (status : Z) (v : JsVal),
     sent (handle params query b) = Some (status, v) /\
     (status = 200%Z \/ status = 400%Z)) /\
  (forall u o, In (u, o) (calls (handle params query b)) -> got u o = Pending ->
     sent (handle params query b) = None /\
     returned (handle params query b) = Normal (ReturnPromise Pending) /\
     (to_boolean (get_prop b "timeout") = false ->
      get_prop o "timeout" = JUndefined)).
Proof.
  intros Hgot.
  destruct (to_boolean b) eqn:T.
  - destruct (handles params query b T) as [_ H].
    pose proof (calls_spec params query b) as C.
    destruct (to_boolean (get_prop b "url")); cbn [andb] in C;
      [|destruct H as (R & S & _); rewrite C;
        split; [eauto|split; [eauto 8|intros u o []]]].
    destruct (to_boolean (get_prop b "method")); cbn [andb] in C;
      [|destruct H as (R & S & _); rewrite C;
        split; [eauto|split; [eauto 8|intros u o []]]].
    rewrite C.
    destruct (got (get_prop b "url") (options_for b)) as [response|err|] eqn:G.
    + assert (A : exists ret status v,
                 returned (handle params query b) = Normal ret /\
                 sent (handle params query b) = Some (status, v) /\
                 (status = 200%Z \/ status = 400%Z))
        by (destruct (JSON_parse (body response));
            destruct H as (R & S & _); eauto 8).
      destruct A as (ret & status & v & R & S & St).
      split; [eauto|split; [eauto|]].
      intros u o [E|[]] P. injection E as <- <-. congruence.
    + rewrite (Hgot _ _ _ G) in H. destruct H as (R & S & _).
      split; [eauto|split; [eauto 8|]].
      intros u o [E|[]] P. injection E as <- <-. congruence.
    + destruct H as (R & S & _).
      split; [eauto|split].
      * intros N. exfalso. apply (N _ _ (or_introl eq_refl)). exact G.
      * intros u o [E|[]] _. injection E as <- <-.
        split; [exact S|]. split; [exact R|].
        intros Tt. rewrite (options_for_field b "timeout") by (simpl; auto).
        rewrite Tt. reflexivity.
  - destruct (handles_no_body params query b T) as (R & S & E & _).
    pose proof (calls_spec params query b) as C.
    rewrite (falsy_body_no_url b T) in C. cbn [to_boolean andb] in C. rewrite C.
    split; [eauto|split; [eauto 8|intros u o []]].
Qed.

(** X3: The options got receives hold the body's [method] unchanged and,
    beyond it, nothing but [body], [timeout], [retries] and [headers]: no
    other field of the request reaches got, and the url is the body's
    [url] as it came. *)
Theorem proxy_options_allow_list (params query b u o : JsVal) :
  In (u, o) (calls (handle params query b)) ->
  u = get_prop b "url" /\
  get_prop o "method" = get_prop b "method" /\
  (forall k, ~ In k option_keys -> get_prop o k = JUndefined).
Proof.
  intros Hin. destruct (calls_inv _ _ _ _ _ Hin) as (-> & -> & _ & _).
  split; [reflexivity|]. split; [apply options_for_method|].
  intros k Hk. apply options_for_other. exact Hk.
Qed.

(** X4: The [body] option is text or absent, never an object: a truthy
    [body] of the request is always run through JSON.stringify, so a body
    that is already a string is sent with quotes around it. *)
Theorem proxy_body_option_is_text (params query b u o : JsVal) :
  In (u, o) (calls (handle params query b)) ->
  (get_prop o "body" = JUndefined \/ exists t, get_prop o "body" = JStr t) /\
  (forall s, get_prop b "body" = JStr s -> s <> EmptyString ->
             get_prop o "body" = JStr (quote s)).
Proof.
  intros Hin. destruct (calls_inv _ _ _ _ _ Hin) as (_ & -> & _ & _).
  rewrite (options_for_field b "body") by (simpl; auto).
  cbn [String.eqb Ascii.eqb Bool.eqb].
  split.
  - destruct (to_boolean (get_prop b "body")) eqn:T; [right|left; reflexivity].
    apply stringify_defined. intros E. rewrite E in T. discriminate.
  - intros s Hs Hne. rewrite Hs. simpl.
    destruct (String.eqb_spec s EmptyString) as [E|_]; [contradiction|].
    reflexivity.
Qed.

(** X5: The handler logs the request body as it came, before validating it,
    and logs the url and the options of its call of got before making
    it: the effects start with the line logged on arrival, then the line
    with the options, then the call, in this order.  Headers the caller
    supplied go to the log unchanged. *)
Theorem proxy_logs_before_calling (params query b : JsVal) :
  (exists rest,
     events (snd (handle params query b)) = received params query b :: rest) /\
  (forall u o, In (u, o) (calls (handle params query b)) ->
     (exists later,
        events (snd (handle params query b))
        = received params query b :: proxy_calling u o :: Got u o :: later) /\
     (to_boolean (get_prop b "headers") = true ->
      get_prop o "headers" = get_prop b "headers")).
Proof.
  split.
  - destruct (to_boolean b) eqn:T.
    + destruct (handles params query b T) as [_ H].
      destruct (to_boolean (get_prop b "url"));
        [|destruct H as (_ & _ & ->); eauto].
      destruct (to_boolean (get_prop b "method"));
        [|destruct H as (_ & _ & ->); eauto].
      destruct (got (get_prop b "url") (options_for b)) as [response|err|].
      * destruct (JSON_parse (body response)); destruct H as (_ & _ & ->); eauto.
      * destruct (is_nullish err); destruct H as (_ & _ & ->); eauto.
      * destruct H as (_ & _ & ->). eauto.
    + destruct (handles_no_body params query b T) as (_ & _ & -> & _). eauto.
  - intros u o Hin. split; [apply events_of_call; exact Hin|].
    destruct (calls_inv _ _ _ _ _ Hin) as (-> & -> & Tu & Tm).
    intros Th. rewrite (options_for_field b "headers") by (simpl; auto).
    rewrite Th. reflexivity.
Qed.
End Properties.

(** ** The claims at concrete requests *)

Lemma C1_witness :
  absent_or_empty [("method", JStr "GET")] "url" /\
  sent (scenario (JObj [("method", JStr "GET")])) = Some (400%Z, missing "url") /\
  absent_or_empty [("url", JStr "http://x/ok"); ("method", JStr EmptyString)] "method" /\
  sent (scenario (JObj [("url", JStr "http://x/ok"); ("method", JStr EmptyString)]))
    = Some (400%Z, missing "method").
Proof.
  split; [left; reflexivity|]. split.
  - apply (proj1 (C1_missing_field_answered_400 got_scenario parse_json
                    (JObj []) (JObj []) [("method", JStr "GET")])).
    left; reflexivity.
  - split; [right; reflexivity|].
    apply (proj1 (proj2 (C1_missing_field_answered_400 got_scenario parse_json
                    (JObj []) (JObj [])
                    [("url", JStr "http://x/ok"); ("method", JStr EmptyString)]))
             (JStr "http://x/ok")).
    + split; reflexivity.
    + right; reflexivity.
Defined.

Lemma C2_witness :
  got_scenario (JStr "http://x/ok") (JObj [("method", JStr "GET")])
    = Fulfilled (mkResponse 200 kv_text) /\
  parse_json kv_text = Some (JObj [("k", JStr "v")]) /\
  sent (scenario (JObj get_ok)) = Some (200%Z, JObj [("k", JStr "v")]).
Proof.
  split; [reflexivity|]. split; [reflexivity|].
  apply (C2_success_returns_parsed_body got_scenario parse_json
           (JObj []) (JObj []) get_ok (JStr "http://x/ok") (JStr "GET")
           (JObj [("method", JStr "GET")]) (mkResponse 200 kv_text)
           (JObj [("k", JStr "v")])).
  - split; reflexivity.
  - split; reflexivity.
  - reflexivity.
  - reflexivity.
  - reflexivity.
Defined.

Lemma C3_witness :
  got_scenario (JStr "http://x/bad") (JObj [("method", JStr "GET")])
    = Rejected (HTTPError 500 "Internal Server Error") /\
  returned (scenario (JObj get_bad)) = Normal (ReturnPromise (Fulfilled RRes)) /\
  sent (scenario (JObj get_bad))
    = Some (400%Z, JObj [("err", HTTPError 500 "Internal Server Error")]) /\
  get_prop (HTTPError 500 "Internal Server Error") "statusCode" = JNum 500.
Proof.
  split; [reflexivity|].
  destruct (C3_upstream_failure_answered_400 got_scenario parse_json
              (JObj []) (JObj []) get_bad (JStr "http://x/bad") (JStr "GET")
              (JObj [("method", JStr "GET")])
              (HTTPError 500 "Internal Server Error")) as (R & S & _).
  - split; reflexivity.
  - split; reflexivity.
  - reflexivity.
  - reflexivity.
  - reflexivity.
  - split; [exact R|]. split; [exact S|reflexivity].
Defined.

Lemma C4_witness :
  got_scenario (JStr "http://x/text") (JObj [("method", JStr "GET")])
    = Fulfilled (mkResponse 200 "not-json") /\
  parse_json "not-json" = None /\
  returned (scenario (JObj get_text)) = Normal (ReturnPromise (Fulfilled RRes)) /\
  sent (scenario (JObj get_text)) = Some (400%Z, JObj [("err", SyntaxError)]).
Proof.
  split; [reflexivity|]. split; [reflexivity|].
  apply (C4_malformed_response_answered_400 got_scenario parse_json
           (JObj []) (JObj []) get_text (JStr "http://x/text") (JStr "GET")
           (JObj [("method", JStr "GET")]) (mkResponse 200 "not-json")).
  - split; reflexivity.
  - split; reflexivity.
  - reflexivity.
  - reflexivity.
  - reflexivity.
Defined.

Lemma C5_witness :
  lookup "body" get_ok = None /\ lookup "timeout" get_ok = None /\
  lookup "retries" get_ok = None /\ lookup "headers" get_ok = None /\
  calls (scenario (JObj get_ok))
    = [(JStr "http://x/ok", JObj [("method", JStr "GET")])].
Proof.
  repeat (split; [reflexivity|]).
  apply (C5_absent_fields_leave_defaults got_scenario parse_json
           (JObj []) (JObj []) get_ok (JStr "http://x/ok") (JStr "GET")).
  - split; reflexivity.
  - split; reflexivity.
  - reflexivity.
  - reflexivity.
  - reflexivity.
  - reflexivity.
Defined.

Lemma truthy_fields_translated_witness :
  (exists o, calls (scenario (JObj post_full)) = [(JStr "http://x/ok", o)]) /\
  calls (scenario (JObj post_full))
    = [(JStr "http://x/ok", options_of post_full)] /\
  get_prop (options_of post_full) "body"
    = JStr ("{" ++ dquote ++ "a" ++ dquote ++ ":1}") /\
  get_prop (options_of post_full) "headers" = JObj [("X-Test", JStr "1")] /\
  get_prop (options_of post_full) "timeout" = JNum 5000 /\
  get_prop (options_of post_full) "retries" = JNum 2.
Proof.
  assert (C : calls (scenario (JObj post_full))
              = [(JStr "http://x/ok", options_of post_full)]) by reflexivity.
  split.
  { apply (proj1 (truthy_fields_translated got_scenario parse_json
                    (JObj []) (JObj []) post_full)
             (JStr "http://x/ok") (JStr "POST")); split; reflexivity. }
  split; [exact C|].
  destruct (proj2 (truthy_fields_translated got_scenario parse_json
                     (JObj []) (JObj []) post_full)
              (JStr "http://x/ok") (options_of post_full)) as (B & K).
  - unfold scenario in C. rewrite C. left. reflexivity.
  - split; [|split; [|split]].
    + rewrite (B (JObj [("a", JNum 1)])); [reflexivity|split; reflexivity].
    + apply K; [simpl; tauto|split; reflexivity].
    + apply K; [simpl; tauto|split; reflexivity].
    + apply K; [simpl; tauto|split; reflexivity].
Defined.

Lemma C9_witness :
  lookup "retries" get_no_retry = Some (JNum 0) /\
  remove_key "retries" get_no_retry = get_ok /\
  returned (scenario (JObj get_no_retry)) = returned (scenario (JObj get_ok)) /\
  sent (scenario (JObj get_no_retry)) = sent (scenario (JObj get_ok)) /\
  calls (scenario (JObj get_no_retry)) = calls (scenario (JObj get_ok)).
Proof.
  split; [reflexivity|]. split; [reflexivity|].
  destruct (C9_falsy_field_as_absent got_scenario parse_json
              (JObj []) (JObj []) get_no_retry "retries" (JNum 0))
    as (R & S & C & _).
  - simpl; tauto.
  - reflexivity.
  - reflexivity.
  - split; [exact R|]. split; [exact S|exact C].
Defined.

Lemma C10_witness :
  to_boolean JUndefined = false /\
  returned (scenario JUndefined) = Normal ReturnRes /\
  sent (scenario JUndefined) = Some (400%Z, missing "url") /\
  calls (scenario JUndefined) = [] /\
  req_body (snd (scenario JUndefined)) = JObj [].
Proof.
  split; [reflexivity|].
  apply (C10_no_body_answered_400 got_scenario parse_json
           (JObj []) (JObj []) JUndefined).
  reflexivity.
Defined.

(** ** Examples *)

Example stringify_body_a1 :
  JSON_stringify (JObj [("a", JNum 1)]) = JStr ("{" ++ dquote ++ "a" ++ dquote ++ ":1}").
Proof. reflexivity. Qed.

Example parse_json_kv :
  parse_json ("{" ++ dquote ++ "k" ++ dquote ++ ":" ++ dquote ++ "v" ++ dquote ++ "}")
  = Some (JObj [("k", JStr "v")]).
Proof. reflexivity. Qed.

Example parse_json_nested :
  parse_json ("{ " ++ dquote ++ "a" ++ dquote ++ " : [1, -20, true, null, {}], "
                   ++ dquote ++ "b\n" ++ dquote ++ ":[] }")
  = Some (JObj [("a", JArr [JNum 1; JNum (-20); JBool true; JNull; JObj []]);
                ("b" ++ String (ascii_of_nat 10) EmptyString, JArr [])]).
Proof. reflexivity. Qed.

(** Numbers beyond the integers a double holds exactly are written as
    the double nearest to them. *)
Example stringify_large_numbers :
  JSON_stringify (JNum (2 ^ 53 + 1)) = JStr "9007199254740992" /\
  JSON_stringify (JNum (2 ^ 64)) = JStr "18446744073709552000" /\
  JSON_stringify (JNum (10 ^ 20)) = JStr "100000000000000000000" /\
  JSON_stringify (JNum (10 ^ 21)) = JStr "1e+21" /\
  JSON_stringify (JNum (- 2 ^ 70)) = JStr "-1.1805916207174113e+21" /\
  JSON_stringify (JNum (2 ^ 1024)) = JStr "null".
Proof. vm_compute. repeat split; reflexivity. Qed.

Example parse_json_numerals :
  parse_json "[1e3, 1.50E+1, -0, 120e-1]"
  = Some (JArr [JNum 1000; JNum 15; JNum 0; JNum 12]).
Proof. reflexivity. Qed.

(** Array indices come first among the keys, and a key given twice keeps
    its first place and its last value. *)
Example parse_json_key_order :
  parse_json ("{" ++ dquote ++ "b" ++ dquote ++ ":1," ++ dquote ++ "2" ++ dquote ++ ":2,"
                  ++ dquote ++ "1" ++ dquote ++ ":3," ++ dquote ++ "b" ++ dquote ++ ":4}")
  = Some (JObj [("1", JNum 3); ("2", JNum 2); ("b", JNum 4)]).
Proof. reflexivity. Qed.

Example parse_json_not_json : parse_json "not-json" = None.
Proof. reflexivity. Qed.

Example parse_json_trailing : parse_json "[1] x" = None.
Proof. reflexivity. Qed.

Example parse_stringify_roundtrip :
  let v := JObj [("url", JStr "http://x/ok"); ("retries", JNum 0);
                 ("headers", JObj [("X-Test", JStr "1")]); ("body", JArr [JBool false; JNull])] in
  match stringify v with
  | Some t => parse_json t
  | None => None
  end = Some v.
Proof. reflexivity. Qed.

(** The two validation answers as they go over the wire. *)
Example missing_url_text :
  stringify (missing "url")
  = Some ("{" ++ dquote ++ "message" ++ dquote ++ ":" ++ dquote
              ++ "\" ++ dquote ++ "url\" ++ dquote ++ " is missing." ++ dquote ++ "}").
Proof. reflexivity. Qed.

Example missing_method_text :
  stringify (missing "method")
  = Some ("{" ++ dquote ++ "message" ++ dquote ++ ":" ++ dquote
              ++ "\" ++ dquote ++ "method\" ++ dquote ++ " is missing." ++ dquote ++ "}").
Proof. reflexivity. Qed.

(** An error of got goes over the wire with its status code. *)
Example upstream_error_text :
  stringify (JObj [("err", HTTPError 500 "Internal Server Error")])
  = Some ("{" ++ dquote ++ "err" ++ dquote ++ ":{" ++ dquote ++ "statusCode" ++ dquote
              ++ ":500," ++ dquote ++ "statusMessage" ++ dquote ++ ":" ++ dquote
              ++ "Internal Server Error" ++ dquote ++ "}}").
Proof. reflexivity. Qed.

(** A rejection with [undefined] would leave the chain rejected and the
    caller without an answer; got rejects with error objects only. *)
Example rejection_with_undefined :
  let r := run (fun _ _ => Rejected JUndefined) parse_json (JObj []) (JObj []) (JObj get_ok) in
  returned r = Normal (ReturnPromise (Rejected (TypeError JUndefined "statusCode"))) /\
  sent r = None.
Proof. split; reflexivity. Qed.

(** An unreachable upstream is answered like any other failure. *)
Example unreachable_upstream :
  sent (scenario (JObj [("url", JStr "http://nowhere/"); ("method", JStr "GET")]))
  = Some (400%Z, JObj [("err", RequestError "ECONNREFUSED")]).
Proof. reflexivity. Qed.

(** ** The other route *)

(** X6: GET / answers every request with status 200 and [{env: NODE_ENV}],
    calls nothing and leaves the request as it is; the promise it returns
    is fulfilled.  The answer is the text [{}] exactly when NODE_ENV is
    not set. *)
Theorem root_answers_env (NODE_ENV params query b : JsVal) :
  returned (root_handler NODE_ENV (incoming params query b))
    = Normal (ReturnPromise (Fulfilled RUndefined)) /\
  sent (root_handler NODE_ENV (incoming params query b))
    = Some (200%Z, JObj [("env", NODE_ENV)]) /\
  calls (root_handler NODE_ENV (incoming params query b)) = [] /\
  req_body (snd (root_handler NODE_ENV (incoming params query b))) = b /\
  (stringify (JObj [("env", NODE_ENV)]) = Some "{}" <-> NODE_ENV = JUndefined).
Proof.
  repeat split; try reflexivity.
  - destruct NODE_ENV as [| |[|]| | | | |]; simpl; intros H;
      try reflexivity; discriminate.
  - intros ->. reflexivity.
Qed.


(** ** More on the handler, at concrete requests *)

Lemma got_scenario_rejects_with_errors (u o e : JsVal) :
  got_scenario u o = Rejected e -> is_nullish e = false.
Proof.
  unfold got_scenario. destruct u; try (intros H; injection H as <-; reflexivity).
  destruct (s =? "http://x/ok"); [discriminate|].
  destruct (s =? "http://x/text"); [discriminate|].
  destruct (s =? "http://x/bad"); intros H; injection H as <-; reflexivity.
Qed.

Lemma proxy_answers_unless_pending_witness :
  (exists (status : Z) (v : JsVal),
     sent (scenario (JObj get_text)) = Some (status, v) /\
     (status = 200%Z \/ status = 400%Z)) /\
  sent (run got_silent parse_json (JObj []) (JObj []) (JObj get_ok)) = None /\
  returned (run got_silent parse_json (JObj []) (JObj []) (JObj get_ok))
    = Normal (ReturnPromise Pending).
Proof.
  split.
  - apply (proxy_answers_unless_pending got_scenario parse_json
             (JObj []) (JObj []) (JObj get_text)
             got_scenario_rejects_with_errors).
    intros u o [E|[]]. injection E as <- <-. discriminate.
  - destruct (proj2 (proj2 (proxy_answers_unless_pending got_silent parse_json
                              (JObj []) (JObj []) (JObj get_ok)
                              ltac:(discriminate)))
                (JStr "http://x/ok") (JObj [("method", JStr "GET")]))
      as (S & R & _).
    + left. reflexivity.
    + reflexivity.
    + split; [exact S|exact R].
Defined.

Lemma proxy_options_allow_list_witness :
  calls (scenario (JObj post_extra))
    = [(JStr "http://x/ok", options_for (JObj post_extra))] /\
  get_prop (options_for (JObj post_extra)) "method" = JStr "POST" /\
  get_prop (options_for (JObj post_extra)) "json" = JUndefined /\
  get_prop (options_for (JObj post_extra)) "followRedirect" = JUndefined.
Proof.
  assert (C : calls (scenario (JObj post_extra))
              = [(JStr "http://x/ok", options_for (JObj post_extra))])
    by reflexivity.
  split; [exact C|].
  destruct (proxy_options_allow_list got_scenario parse_json (JObj []) (JObj [])
              (JObj post_extra) (JStr "http://x/ok") (options_for (JObj post_extra)))
    as (_ & M & K).
  - unfold scenario in C. rewrite C. left. reflexivity.
  - split; [exact M|]. split; apply K; simpl; intuition discriminate.
Defined.

Lemma proxy_body_option_is_text_witness :
  calls (scenario (JObj post_text))
    = [(JStr "http://x/ok", options_for (JObj post_text))] /\
  get_prop (options_for (JObj post_text)) "body"
    = JStr (dquote ++ "hello" ++ dquote).
Proof.
  assert (C : calls (scenario (JObj post_text))
              = [(JStr "http://x/ok", options_for (JObj post_text))])
    by reflexivity.
  split; [exact C|].
  destruct (proxy_body_option_is_text got_scenario parse_json (JObj []) (JObj [])
              (JObj post_text) (JStr "http://x/ok") (options_for (JObj post_text)))
    as (_ & Q).
  - unfold scenario in C. rewrite C. left. reflexivity.
  - apply (Q "hello"); [reflexivity|discriminate].
Defined.

Lemma proxy_logs_before_calling_witness :
  (exists later,
     events (snd (scenario (JObj post_extra)))
     = received (JObj []) (JObj []) (JObj post_extra)
       :: proxy_calling (JStr "http://x/ok") (options_for (JObj post_extra))
       :: Got (JStr "http://x/ok") (options_for (JObj post_extra)) :: later) /\
  get_prop (options_for (JObj post_extra)) "headers"
    = JObj [("Authorization", JStr "Bearer sfihpffpr09r73")].
Proof.
  destruct (proj2 (proxy_logs_before_calling got_scenario parse_json
                     (JObj []) (JObj []) (JObj post_extra))
              (JStr "http://x/ok") (options_for (JObj post_extra)))
    as (L & H).
  - left. reflexivity.
  - split; [exact L|]. apply H. reflexivity.
Defined.

Example proxy_array_body :
  sent (scenario (JArr [JNum 1; JNum 2])) = Some (400%Z, missing "url") /\
  calls (scenario (JArr [JNum 1; JNum 2])) = [].
Proof. split; reflexivity. Qed.



(** ** Splitting and joining *)

Lemma split_not_nil (sep : ascii) (s : string) : split sep s <> [].
Proof.
  destruct s as [|c s]; simpl; [discriminate|].
  destruct (c =? sep)%char; [discriminate|].
  destruct (split sep s); discriminate.
Qed.

Lemma join_cons (sep p : string) (ps : list string) :
  ps <> [] -> join sep (p :: ps) = p ++ sep ++ join sep ps.
Proof. destruct ps; [contradiction|reflexivity]. Qed.

Lemma join_split (sep : ascii) (s : string) :
  join (String sep EmptyString) (split sep s) = s.
Proof.
  induction s as [|c s IH]; simpl; [reflexivity|].
  destruct (c =? sep)%char eqn:E.
  - apply Ascii.eqb_eq in E. subst c.
    rewrite join_cons by apply split_not_nil. rewrite IH. reflexivity.
  - destruct (split sep s) as [|p ps] eqn:S; [destruct (split_not_nil _ _ S)|].
    destruct ps as [|q qs]; simpl in *; rewrite <- IH; reflexivity.
Qed.

Lemma length_split (sep : ascii) (s : string) :
  List.length (split sep s) = S (count_char sep s).
Proof.
  induction s as [|c s IH]; simpl; [reflexivity|].
  destruct (c =? sep)%char; simpl; [rewrite IH; reflexivity|].
  destruct (split sep s); simpl in *; [discriminate|exact IH].
Qed.

Lemma split_without (sep : ascii) (s : string) :
  count_char sep s = 0%nat -> split sep s = [s].
Proof.
  induction s as [|c s IH]; simpl; [reflexivity|].
  destruct (c =? sep)%char; simpl; [discriminate|].
  intros H. rewrite (IH H). reflexivity.
Qed.

Lemma split_app (sep : ascii) (a b : string) :
  count_char sep a = 0%nat ->
  split sep (a ++ String sep b) = a :: split sep b.
Proof.
  induction a as [|c a IH]; simpl.
  - rewrite Ascii.eqb_refl. reflexivity.
  - destruct (c =? sep)%char; simpl; [discriminate|].
    intros H. rewrite (IH H). reflexivity.
Qed.

Lemma split_join (sep : ascii) (parts : list string) :
  parts <> [] ->
  Forall (fun p => count_char sep p = 0%nat) parts ->
  split sep (join (String sep EmptyString) parts) = parts.
Proof.
  induction parts as [|p ps IH]; [contradiction|].
  intros _ H. inversion H as [|? ? Hp Hps]; subst.
  destruct ps as [|q qs].
  - simpl. apply split_without. exact Hp.
  - rewrite join_cons by discriminate.
    change (p ++ String sep EmptyString ++ join (String sep EmptyString) (q :: qs))
      with (p ++ String sep (join (String sep EmptyString) (q :: qs))).
    rewrite split_app by exact Hp.
    rewrite IH; [reflexivity|discriminate|exact Hps].
Qed.

Lemma split_pieces (sep : ascii) (s : string) :
  Forall (fun p => count_char sep p = 0%nat) (split sep s).
Proof.
  induction s as [|c s IH]; simpl.
  - constructor; [reflexivity|constructor].
  - destruct (c =? sep)%char eqn:E.
    + constructor; [reflexivity|exact IH].
    + destruct (split sep s) as [|p ps]; [repeat constructor; simpl; rewrite E; reflexivity|].
      inversion IH; subst. constructor; [|assumption].
      simpl. rewrite E. assumption.
Qed.

(** The first piece holds no more of any character than the string. *)
Lemma first_piece_count (sep x : ascii) (s : string) :
  (count_char x (nth 0 (split sep s) EmptyString) <= count_char x s)%nat.
Proof.
  induction s as [|c s IH]; simpl; [lia|].
  destruct (c =? sep)%char; simpl; [lia|].
  destruct (split sep s) as [|p ps]; simpl in *; lia.
Qed.

(** A string with one separator is a piece, the separator and a piece. *)
Lemma split_two (sep : ascii) (s : string) :
  count_char sep s = 1%nat ->
  exists a b, split sep s = [a; b] /\ s = a ++ String sep b /\
              count_char sep a = 0%nat /\ count_char sep b = 0%nat.
Proof.
  intros H.
  pose proof (length_split sep s) as L. rewrite H in L.
  pose proof (split_pieces sep s) as P.
  pose proof (join_split sep s) as J.
  destruct (split sep s) as [|a [|b [|c r]]]; try discriminate.
  inversion P as [|? ? Pa P']; subst. inversion P' as [|? ? Pb _]; subst.
  exists a, b. repeat split; assumption.
Qed.

(** From the first separator on, a string is a piece, the separator and
    the rest. *)
Lemma split_first (sep : ascii) (s : string) :
  (1 <= count_char sep s)%nat ->
  exists a b, s = a ++ String sep b /\ count_char sep a = 0%nat /\
              nth 0 (split sep s) EmptyString = a.
Proof.
  induction s as [|c s IH]; simpl; [lia|].
  destruct (c =? sep)%char eqn:E.
  - intros _. apply Ascii.eqb_eq in E. subst c.
    exists EmptyString, s. repeat split.
  - simpl. intros H. destruct (IH H) as (a & b & -> & Ha & Hn).
    exists (String c a), b. repeat split.
    + simpl. rewrite E. exact Ha.
    + destruct (split sep (a ++ String sep b)); simpl in *; rewrite Hn; reflexivity.
Qed.

Lemma count_char_app (c : ascii) (a b : string) :
  count_char c (a ++ b) = (count_char c a + count_char c b)%nat.
Proof. induction a as [|x a IH]; simpl; [reflexivity|rewrite IH; lia]. Qed.

(** ** Masking *)

Lemma maskOne_without (p : string) :
  count_char "=" p = 0%nat -> maskOne p = p.
Proof.
  intros H. unfold maskOne. rewrite length_split, H. reflexivity.
Qed.

Lemma maskOne_with (p : string) :
  (1 <= count_char "=" p)%nat ->
  exists name value, p = name ++ "=" ++ value /\
                     count_char "=" name = 0%nat /\ maskOne p = name ++ "=X".
Proof.
  intros H. destruct (split_first "=" p H) as (a & b & E & Ha & Hn).
  exists a, b. repeat split; [exact E|exact Ha|].
  unfold maskOne. rewrite length_split, Hn.
  destruct (count_char "=" p); [lia|reflexivity].
Qed.

Lemma maskOne_idempotent (p : string) : maskOne (maskOne p) = maskOne p.
Proof.
  destruct (count_char "=" p) as [|n] eqn:C.
  - rewrite (maskOne_without p C). apply maskOne_without. exact C.
  - destruct (maskOne_with p) as (name & value & _ & Hn & ->); [lia|].
    destruct (maskOne_with (name ++ "=X")) as (name' & value' & E & Hn' & ->).
    + rewrite count_char_app. simpl. lia.
    + f_equal.
      assert (S : split "=" (name ++ "=X") = split "=" (name' ++ "=" ++ value'))
        by (rewrite E; reflexivity).
      change (name ++ "=X") with (name ++ String "=" "X") in S.
      change (name' ++ "=" ++ value') with (name' ++ String "=" value') in S.
      rewrite !split_app in S by assumption.
      injection S as S _. symmetry. exact S.
Qed.

Lemma maskOne_keeps_out (x : ascii) (p : string) :
  (x =? "=")%char = false -> (x =? "X")%char = false ->
  count_char x p = 0%nat -> count_char x (maskOne p) = 0%nat.
Proof.
  intros E1 E2 H. unfold maskOne.
  destruct (List.length (split "=" p) <? 2)%nat; [exact H|].
  rewrite count_char_app. cbn [count_char].
  rewrite (Ascii.eqb_sym "=" x), E1, (Ascii.eqb_sym "X" x), E2.
  pose proof (first_piece_count "=" x p). lia.
Qed.

Lemma maskCookie_pieces (cookie : string) :
  split ";" (maskCookie cookie) = map maskOne (split ";" cookie).
Proof.
  unfold maskCookie. apply split_join.
  - intros E. apply map_eq_nil in E. exact (split_not_nil _ _ E).
  - apply Forall_map.
    eapply Forall_impl; [|apply split_pieces].
    intros p Hp. apply maskOne_keeps_out; [reflexivity|reflexivity|exact Hp].
Qed.

(** X7: An Authorization value with exactly one space, scheme and token, is
    logged with an X in place of the token. *)
Theorem maskAuthorization_hides_token (auth : string) :
  count_char " " auth = 1%nat ->
  exists scheme token,
    auth = scheme ++ " " ++ token /\
    count_char " " scheme = 0%nat /\
    maskAuthorization auth = scheme ++ " X".
Proof.
  intros H. destruct (split_two " " auth H) as (a & b & S & E & Ha & _).
  exists a, b. repeat split; [exact E|exact Ha|].
  unfold maskAuthorization. rewrite S. reflexivity.
Qed.

Lemma maskAuthorization_other (auth : string) :
  count_char " " auth <> 1%nat -> maskAuthorization auth = auth.
Proof.
  intros H. unfold maskAuthorization. rewrite length_split.
  destruct (Nat.eqb_spec (S (count_char " " auth)) 2) as [E|_]; [lia|reflexivity].
Qed.

(** X8: An Authorization value without a space, or with more than one, is
    not masked at all: it goes to the log as it is, and it is the only
    kind of value that has no X put into it. *)
Theorem maskAuthorization_leaves_other_forms (auth : string) :
  count_char " " auth <> 1%nat ->
  maskAuthorization auth = auth /\
  List.length (split " " (maskAuthorization auth)) <> 2%nat.
Proof.
  intros H. rewrite (maskAuthorization_other auth H).
  split; [reflexivity|]. rewrite length_split. lia.
Qed.

(** X9: maskCookie keeps the number and the order of the cookies and the name
    of each; every cookie with an [=] gets the value X, every other one is
    left as it is. *)
Theorem maskCookie_masks_each_value (cookie : string) :
  Forall2
    (fun seg out =>
       (count_char "=" seg = 0%nat /\ out = seg) \/
       (exists name value,
          seg = name ++ "=" ++ value /\ count_char "=" name = 0%nat /\
          out = name ++ "=X"))
    (split ";" cookie) (split ";" (maskCookie cookie)).
Proof.
  rewrite maskCookie_pieces.
  induction (split ";" cookie) as [|p ps IH]; simpl; constructor; [|exact IH].
  destruct (count_char "=" p) as [|n] eqn:C.
  - left. split; [reflexivity|apply maskOne_without; exact C].
  - right. destruct (maskOne_with p) as (name & value & E & Hn & M); [lia|].
    exists name, value. auto.
Qed.

(** X10: Masking what is masked already changes nothing, for both headers. *)
Theorem masking_is_idempotent (s : string) :
  maskAuthorization (maskAuthorization s) = maskAuthorization s /\
  maskCookie (maskCookie s) = maskCookie s.
Proof.
  split.
  - destruct (Nat.eq_dec (count_char " " s) 1) as [H|H].
    + destruct (split_two " " s H) as (a & b & S & _ & Ha & _).
      unfold maskAuthorization at 2 3. rewrite S. simpl.
      unfold maskAuthorization.
      change (a ++ " X") with (a ++ String " " "X").
      rewrite split_app by exact Ha. reflexivity.
    + rewrite (maskAuthorization_other s H).
      apply maskAuthorization_other. exact H.
  - unfold maskCookie at 1. rewrite maskCookie_pieces.
    unfold maskCookie. f_equal. rewrite map_map.
    apply map_ext. intros p. apply maskOne_idempotent.
Qed.

Lemma maskAuthorization_hides_token_witness :
  count_char " " "Bearer sfihpffpr09r73" = 1%nat /\
  exists scheme token,
    "Bearer sfihpffpr09r73" = scheme ++ " " ++ token /\
    count_char " " scheme = 0%nat /\
    maskAuthorization "Bearer sfihpffpr09r73" = scheme ++ " X".
Proof.
  split; [reflexivity|].
  apply maskAuthorization_hides_token. reflexivity.
Defined.

Lemma maskAuthorization_leaves_other_forms_witness :
  count_char " " "Bearer  sfihpffpr09r73" <> 1%nat /\
  maskAuthorization "Bearer  sfihpffpr09r73" = "Bearer  sfihpffpr09r73" /\
  count_char " " "sfihpffpr09r73" <> 1%nat /\
  maskAuthorization "sfihpffpr09r73" = "sfihpffpr09r73".
Proof.
  split; [simpl; lia|]. split.
  - apply (proj1 (maskAuthorization_leaves_other_forms "Bearer  sfihpffpr09r73"
                    ltac:(simpl; lia))).
  - split; [simpl; lia|].
    apply (proj1 (maskAuthorization_leaves_other_forms "sfihpffpr09r73"
                    ltac:(simpl; lia))).
Defined.

Example maskAuthorization_bearer :
  maskAuthorization "Bearer sfihpffpr09r73" = "Bearer X".
Proof. reflexivity. Qed.

Example maskCookie_session :
  maskCookie "sid=s%3Aabc.def; theme=dark;flag" = "sid=X; theme=X;flag".
Proof. reflexivity. Qed.


(** ** The store *)

Lemma h_lookup_assign_eq (k : string) (v : HVal) (o : HObject) :
  h_lookup k (h_assign k v o) = Some v.
Proof.
  induction o as [|[k' v'] o IH]; simpl.
  - rewrite String.eqb_refl. reflexivity.
  - destruct (k' =? k) eqn:E; simpl.
    + rewrite String.eqb_refl. reflexivity.
    + rewrite E. exact IH.
Qed.

Lemma h_lookup_assign_ne (k k' : string) (v : HVal) (o : HObject) :
  k <> k' -> h_lookup k' (h_assign k v o) = h_lookup k' o.
Proof.
  intros Hne.
  assert (Hk : (k =? k') = false) by (apply String.eqb_neq; exact Hne).
  induction o as [|[k0 v0] o IH]; simpl.
  - rewrite Hk. reflexivity.
  - destruct (k0 =? k) eqn:E; simpl.
    + apply String.eqb_eq in E. subst k0. rewrite Hk. reflexivity.
    + destruct (k0 =? k'); [reflexivity|exact IH].
Qed.

Lemma length_h_update (h : Heap) (l : loc) (o : HObject) :
  List.length (h_update h l o) = List.length h.
Proof.
  revert l. induction h as [|x h IH]; intros [|l]; simpl; auto.
Qed.

Lemma h_object_update_eq (h : Heap) (l : loc) (o : HObject) :
  (l < List.length h)%nat -> h_object (h_update h l o) l = o.
Proof.
  unfold h_object. revert l.
  induction h as [|x h IH]; intros [|l]; simpl; intros H; try lia; auto.
  apply IH. lia.
Qed.

Lemma h_object_update_ne (h : Heap) (l l' : loc) (o : HObject) :
  l <> l' -> h_object (h_update h l o) l' = h_object h l'.
Proof.
  unfold h_object. revert l l'.
  induction h as [|x h IH]; intros [|l] [|l']; simpl; intros H;
    try reflexivity; try contradiction.
  apply IH. congruence.
Qed.

Lemma h_object_app (h : Heap) (o : HObject) (l : loc) :
  (l < List.length h)%nat -> h_object (h ++ [o])%list l = h_object h l.
Proof. intros H. unfold h_object. apply app_nth1. exact H. Qed.

Lemma h_object_new (h : Heap) (o : HObject) :
  h_object (h ++ [o])%list (List.length h) = o.
Proof. unfold h_object. rewrite app_nth2, Nat.sub_diag by lia. reflexivity. Qed.

(** Reading after [o.k = x]. *)
Lemma h_field_set_same (h : Heap) (l : loc) (k : string) (x : HVal) :
  (l < List.length h)%nat ->
  h_field (h_update h l (h_assign k x (h_object h l))) l k = x.
Proof.
  intros H. unfold h_field. rewrite h_object_update_eq by exact H.
  rewrite h_lookup_assign_eq. reflexivity.
Qed.

Lemma h_field_set_other_key (h : Heap) (l l' : loc) (k k' : string) (x : HVal) :
  k <> k' ->
  h_field (h_update h l (h_assign k x (h_object h l))) l' k' = h_field h l' k'.
Proof.
  intros Hk. unfold h_field.
  destruct (Nat.eq_dec l l') as [<-|Hl].
  - destruct (Nat.lt_ge_cases l (List.length h)) as [H|H].
    + rewrite h_object_update_eq by exact H.
      rewrite h_lookup_assign_ne by exact Hk. reflexivity.
    + assert (E : h_update h l (h_assign k x (h_object h l)) = h).
      { clear Hk. generalize (h_assign k x (h_object h l)). revert l H.
        induction h as [|y h IH]; intros [|l] H o; simpl in *;
          try reflexivity; try lia.
        rewrite IH by lia. reflexivity. }
      rewrite E. reflexivity.
  - rewrite h_object_update_ne by exact Hl. reflexivity.
Qed.

Lemma h_field_set_other_loc (h : Heap) (l l' : loc) (k k' : string) (x : HVal) :
  l <> l' ->
  h_field (h_update h l (h_assign k x (h_object h l))) l' k' = h_field h l' k'.
Proof.
  intros Hl. unfold h_field. rewrite h_object_update_ne by exact Hl. reflexivity.
Qed.

Lemma h_field_app (h : Heap) (o : HObject) (l : loc) (k : string) :
  (l < List.length h)%nat -> h_field (h ++ [o])%list l k = h_field h l k.
Proof. intros H. unfold h_field. rewrite h_object_app by exact H. reflexivity. Qed.

Lemma h_field_new (h : Heap) (l : loc) (k : string) :
  h_field (h ++ [h_object h l])%list (List.length h) k = h_field h l k.
Proof. unfold h_field. rewrite h_object_new. reflexivity. Qed.

Lemma mask_empty :
  maskAuthorization EmptyString = EmptyString /\ maskCookie EmptyString = EmptyString.
Proof. split; reflexivity. Qed.

Section SerializerProperties.

Variable stdSerialize : HVal -> HM HVal.

Ltac hsimp :=
  cbv beta iota delta
    [serialize h_bind h_ret h_throw h_get h_set h_clone call_mask negb
     fst snd].

Ltac heap :=
  repeat first
    [ rewrite length_h_update
    | rewrite length_app
    | rewrite h_field_set_same by (rewrite ?length_h_update, ?length_app; simpl; lia)
    | rewrite h_field_set_other_key by discriminate
    | rewrite h_field_set_other_loc by (rewrite ?length_h_update, ?length_app; simpl; lia)
    | rewrite h_field_app by (rewrite ?length_h_update, ?length_app; simpl; lia)
    | rewrite h_field_new ].

Lemma h_truthy_str (s : string) :
  h_truthy (HStr s) = false -> s = EmptyString.
Proof.
  simpl. destruct (String.eqb_spec s EmptyString); [auto|discriminate].
Qed.

(** What serialize returns and what it leaves in the store, when the
    serialized form has a headers object with text for [authorization] and
    [cookie]: [o] and [u] are the request's [originalUrl] and [url]. *)
Lemma serialize_spec (h h1 : Heap) (r s hd : loc) (auth cookie : string) :
  stdSerialize (HRef r) h = (Normal (HRef s), h1) ->
  (r < List.length h1)%nat -> (s < List.length h1)%nat ->
  (hd < List.length h1)%nat -> hd <> s -> hd <> r ->
  h_field h1 s "headers" = HRef hd ->
  h_field h1 hd "authorization" = HStr auth ->
  h_field h1 hd "cookie" = HStr cookie ->
  let o := h_field h1 r "originalUrl" in
  let u := h_field h1 r "url" in
  let U := h_truthy o && negb (h_strict_eq o u) in
  let changes := h_truthy (HStr auth) || h_truthy (HStr cookie) || U in
  exists s' h2,
    serialize stdSerialize (HRef r) h = (Normal (HRef s'), h2) /\
    s' = (if changes && (s =? r)%nat then List.length h1 else s) /\
    h_field h2 s' "headers" = HRef hd /\
    h_field h2 hd "authorization" = HStr (maskAuthorization auth) /\
    h_field h2 hd "cookie" = HStr (maskCookie cookie) /\
    h_field h2 s' "url" = (if U then o else h_field h1 s "url") /\
    (forall l k, (l < List.length h1)%nat -> l <> hd -> l <> s' ->
                 h_field h2 l k = h_field h1 l k).
Proof.
  intros Hstd Hr Hs Hhd Hds Hdr Fh Fa Fc o u U changes.
  subst changes U.
  assert (Eo : h_field h1 r "originalUrl" = o) by reflexivity.
  assert (Eu : h_field h1 r "url" = u) by reflexivity.
  clearbody o u.
  assert (Ma : h_truthy (HStr auth) = false -> maskAuthorization auth = auth)
    by (intros T; apply h_truthy_str in T; subst auth; reflexivity).
  assert (Mc : h_truthy (HStr cookie) = false -> maskCookie cookie = cookie)
    by (intros T; apply h_truthy_str in T; subst cookie; reflexivity).
  assert (Hsr : h_strict_eq (HRef s) (HRef r) = (s =? r)%nat) by reflexivity.
  destruct (h_truthy (HStr auth)) eqn:Ta;
  destruct (h_truthy (HStr cookie)) eqn:Tc;
  destruct (h_truthy o) eqn:To;
  destruct (h_strict_eq o u) eqn:Sq;
  destruct (Nat.eqb_spec s r) as [Esr|Esr];
  cbn [orb andb negb];
  try rewrite (Ma eq_refl); try rewrite (Mc eq_refl);
  repeat (progress (hsimp;
                    rewrite ?Hstd, ?Fh, ?Fa, ?Fc, ?Eo, ?Eu, ?Ta, ?Tc, ?To, ?Sq, ?Hsr;
                    heap; cbn [h_truthy negb]));
  (eexists; eexists; split; [reflexivity|]);
  repeat split; intros; heap; auto.
Qed.


(** X11: What goes to the log is masked: the object serialize returns has the
    headers object of the serialized form, in which [authorization] and
    [cookie] now hold what maskAuthorization and maskCookie make of them,
    and its [url] is the request's [originalUrl] when that is set and
    differs from [url]. *)
Theorem serialize_masks_headers (h h1 : Heap) (r s hd : loc)
  (auth cookie : string) :
  stdSerialize (HRef r) h = (Normal (HRef s), h1) ->
  (r < List.length h1)%nat -> (s < List.length h1)%nat ->
  (hd < List.length h1)%nat -> hd <> s -> hd <> r ->
  h_field h1 s "headers" = HRef hd ->
  h_field h1 hd "authorization" = HStr auth ->
  h_field h1 hd "cookie" = HStr cookie ->
  exists s' h2,
    serialize stdSerialize (HRef r) h = (Normal (HRef s'), h2) /\
    h_field h2 s' "headers" = HRef hd /\
    h_field h2 hd "authorization" = HStr (maskAuthorization auth) /\
    h_field h2 hd "cookie" = HStr (maskCookie cookie) /\
    h_field h2 s' "url"
    = (if h_truthy (h_field h1 r "originalUrl")
          && negb (h_strict_eq (h_field h1 r "originalUrl") (h_field h1 r "url"))
       then h_field h1 r "originalUrl"
       else h_field h1 s "url").
Proof.
  intros Hstd Hr Hs Hhd Hds Hdr Fh Fa Fc.
  destruct (serialize_spec h h1 r s hd auth cookie Hstd Hr Hs Hhd Hds Hdr Fh Fa Fc)
    as (s' & h2 & E & _ & H1 & H2 & H3 & H4 & _).
  exists s', h2. auto.
Qed.

(** X12: A serialized form without a headers object makes serialize throw. *)
Theorem serialize_needs_headers (h h1 : Heap) (r s : loc) :
  stdSerialize (HRef r) h = (Normal (HRef s), h1) ->
  h_field h1 s "headers" = HUndefined ->
  serialize stdSerialize (HRef r) h = (Throw (NotAnObject "authorization"), h1).
Proof.
  intros Hstd Fh. hsimp. rewrite Hstd. hsimp. rewrite Fh. reflexivity.
Qed.

End SerializerProperties.

(** X13: When the standard serializer hands back the request itself and there
    is an Authorization header to mask, serialize returns a copy and
    leaves every property of the request object as it was, but the copy
    shares the request's headers object: the request's own
    [headers.authorization] and [headers.cookie] are overwritten with the
    masked values. *)
Theorem serialize_overwrites_request_headers (h : Heap) (r hd : loc)
  (auth cookie : string) :
  (r < List.length h)%nat -> (hd < List.length h)%nat -> hd <> r ->
  h_field h r "headers" = HRef hd ->
  h_field h hd "authorization" = HStr auth -> auth <> EmptyString ->
  h_field h hd "cookie" = HStr cookie ->
  exists s' h2,
    serialize std_identity (HRef r) h = (Normal (HRef s'), h2) /\
    s' <> r /\
    (forall k, h_field h2 r k = h_field h r k) /\
    h_field h2 r "headers" = HRef hd /\
    h_field h2 hd "authorization" = HStr (maskAuthorization auth) /\
    h_field h2 hd "cookie" = HStr (maskCookie cookie).
Proof.
  intros Hr Hhd Hdr Fh Fa Ha Fc.
  destruct (serialize_spec std_identity h h r r hd auth cookie eq_refl
              Hr Hr Hhd Hdr Hdr Fh Fa Fc)
    as (s' & h2 & E & Es & _ & H2 & H3 & _ & Fr).
  assert (Ta : h_truthy (HStr auth) = true).
  { simpl. destruct (String.eqb_spec auth EmptyString); [contradiction|reflexivity]. }
  rewrite Ta, Nat.eqb_refl in Es. cbn [orb andb] in Es.
  assert (Hk : forall k, h_field h2 r k = h_field h r k)
    by (intros k; apply Fr; lia).
  exists s', h2. repeat split; auto; try lia.
  rewrite Hk. exact Fh.
Qed.

Lemma serialize_masks_headers_witness :
  exists s' h2,
    serialize std_identity (HRef 0) logged_request = (Normal (HRef s'), h2) /\
    h_field h2 s' "headers" = HRef 1 /\
    h_field h2 1 "authorization" = HStr "Bearer X" /\
    h_field h2 1 "cookie" = HStr "sid=X".
Proof.
  destruct (serialize_masks_headers std_identity logged_request logged_request
              0 0 1 "Bearer sfihpffpr09r73" "sid=abc")
    as (s' & h2 & E & H1 & H2 & H3 & _);
    try reflexivity; try (simpl; lia).
  exists s', h2. auto.
Defined.

Lemma serialize_needs_headers_witness :
  serialize std_identity (HRef 0) [[("url", HStr "/")]]
  = (Throw (NotAnObject "authorization"), [[("url", HStr "/")]]).
Proof.
  apply (serialize_needs_headers std_identity [[("url", HStr "/")]]
           [[("url", HStr "/")]] 0 0); reflexivity.
Defined.

Lemma serialize_overwrites_request_headers_witness :
  exists s' h2,
    serialize std_identity (HRef 0) logged_request = (Normal (HRef s'), h2) /\
    s' <> 0%nat /\
    h_field h2 0 "headers" = HRef 1 /\
    h_field logged_request 1 "authorization" = HStr "Bearer sfihpffpr09r73" /\
    h_field h2 1 "authorization" = HStr "Bearer X".
Proof.
  destruct (serialize_overwrites_request_headers logged_request 0 1
              "Bearer sfihpffpr09r73" "sid=abc")
    as (s' & h2 & E & Hs & _ & H1 & H2 & _);
    try reflexivity; try (simpl; lia); try discriminate.
  exists s', h2. repeat split; auto.
Defined.


(** ** Configuration and the error middleware *)

(** X14: Each environment predicate holds for its own name only, spelled in
    lower case, so at most one of the three holds, and none when NODE_ENV
    is not set or names another environment. *)
Theorem environments_exclusive (NODE_ENV : JsVal) :
  (isProduction NODE_ENV = true <-> NODE_ENV = JStr "production") /\
  (isLocal NODE_ENV = true <-> NODE_ENV = JStr "local") /\
  (isDevelopment NODE_ENV = true <-> NODE_ENV = JStr "development") /\
  ((if isProduction NODE_ENV then 1 else 0)
   + (if isLocal NODE_ENV then 1 else 0)
   + (if isDevelopment NODE_ENV then 1 else 0) <= 1)%nat.
Proof.
  assert (I : forall name, strict_eq_string NODE_ENV name = true <-> NODE_ENV = JStr name).
  { intros name. unfold strict_eq_string. split.
    - destruct NODE_ENV; try discriminate.
      intros H. apply String.eqb_eq in H. subst s. reflexivity.
    - intros ->. apply String.eqb_refl. }
  unfold isProduction, isLocal, isDevelopment.
  repeat (split; [apply I|]).
  destruct (strict_eq_string NODE_ENV "production") eqn:P;
  destruct (strict_eq_string NODE_ENV "local") eqn:L;
  destruct (strict_eq_string NODE_ENV "development") eqn:D;
  simpl; try lia;
  repeat match goal with
         | H : strict_eq_string NODE_ENV _ = true |- _ => apply I in H
         end; congruence.
Qed.

Section ErrorHandlerProperties.

Variable STATUS_CODES : Z -> option string.
Variable querystring_stringify : list (string * JsVal) -> string.

Local Abbreviation handler := (appErrorHandler STATUS_CODES querystring_stringify).


(** X15: Every error is answered with a status that has a reason phrase: the
    error's own status when Node knows it (whether or not it is an error
    status), and 500 otherwise. *)
Theorem error_status_is_known (phrase500 : string) (NODE_ENV : JsVal)
  (err : HttpError) (accepts : Accepts) (originalUrl : JsVal) :
  STATUS_CODES 500%Z = Some phrase500 -> phrase500 <> EmptyString ->
  known_status STATUS_CODES
    (Some (answer_status (handler NODE_ENV err accepts originalUrl))) = true /\
  (answer_status (handler NODE_ENV err accepts originalUrl)
   = if known_status STATUS_CODES (err_status err)
     then match err_status err with Some n => n | None => 500%Z end
     else 500%Z).
Proof.
  intros H500 Hne.
  assert (K : known_status STATUS_CODES (Some 500%Z) = true).
  { simpl. rewrite H500. destruct (String.eqb_spec phrase500 EmptyString);
      [contradiction|reflexivity]. }
  unfold appErrorHandler. cbn [answer_status].
  destruct (err_status err) as [n|]; [|auto].
  destruct (known_status STATUS_CODES (Some n)) eqn:E; auto.
Qed.


(** X16: Outside 400-499 the reply says nothing of the error's message or
    code: two errors with the same status and stack get the same reply,
    and a JSON reply has no code and the reason phrase as its message. *)
Theorem server_error_reply_hides_message_and_code (NODE_ENV : JsVal)
  (e1 e2 : HttpError) (accepts : Accepts) (originalUrl : JsVal) :
  err_status e1 = err_status e2 -> err_stack e1 = err_stack e2 ->
  is_client_error (answer_status (handler NODE_ENV e1 accepts originalUrl)) = false ->
  answer_status (handler NODE_ENV e1 accepts originalUrl)
    = answer_status (handler NODE_ENV e2 accepts originalUrl) /\
  answer_reply (handler NODE_ENV e1 accepts originalUrl)
    = answer_reply (handler NODE_ENV e2 accepts originalUrl) /\
  (forall body,
     answer_reply (handler NODE_ENV e1 accepts originalUrl) = ReplyJson body ->
     get_prop body "code" = JUndefined /\
     get_prop body "message"
     = string_or_undefined
         (STATUS_CODES (answer_status (handler NODE_ENV e1 accepts originalUrl)))).
Proof.
  unfold appErrorHandler, is_client_error. cbn [answer_status answer_reply].
  intros Es Ek. rewrite <- Es, <- Ek.
  set (status := match err_status e1 with
                 | Some n => if known_status STATUS_CODES (Some n) then n else 500%Z
                 | None => 500%Z
                 end).
  intros C. rewrite C. cbn [first_text String.eqb].
  split; [reflexivity|]. split; [reflexivity|].
  intros body. destruct accepts; try discriminate.
  - intros E. injection E as <-. split; reflexivity.
  - destruct (status =? 401)%Z; discriminate.
Qed.

(** X17: Outside the local environment the reply says nothing of the error's
    stack: two errors that differ in their stack only get the same
    reply. *)
Theorem stack_sent_only_when_local (NODE_ENV : JsVal) (e1 e2 : HttpError)
  (accepts : Accepts) (originalUrl : JsVal) :
  isLocal NODE_ENV = false ->
  err_status e1 = err_status e2 -> err_code e1 = err_code e2 ->
  err_message e1 = err_message e2 ->
  answer_reply (handler NODE_ENV e1 accepts originalUrl)
    = answer_reply (handler NODE_ENV e2 accepts originalUrl) /\
  (forall body,
     answer_reply (handler NODE_ENV e1 accepts originalUrl) = ReplyJson body ->
     get_prop body "stack" = JUndefined).
Proof.
  unfold appErrorHandler. cbn [answer_reply].
  intros L Es Ec Em. rewrite L, <- Es, <- Ec, <- Em.
  split; [reflexivity|].
  intros body. destruct accepts; try discriminate.
  - intros E. injection E as <-. reflexivity.
  - match goal with |- context [(?s =? 401)%Z] => destruct (s =? 401)%Z end;
      discriminate.
Qed.

(** X18: The reply is a redirect exactly when the client accepts html and the
    error has status 401; it then goes to the login page with the
    original url in the query. *)
Theorem redirect_only_for_401_html (NODE_ENV : JsVal) (err : HttpError)
  (accepts : Accepts) (originalUrl : JsVal) (url : string) :
  answer_reply (handler NODE_ENV err accepts originalUrl) = ReplyRedirect url <->
  accepts = AcceptsHtml /\ err_status err = Some 401%Z /\
  known_status STATUS_CODES (Some 401%Z) = true /\
  url = "/?" ++ querystring_stringify
                  [("login", JBool true); ("redirect", originalUrl)].
Proof.
  unfold appErrorHandler. cbn [answer_reply].
  split.
  - destruct accepts; try discriminate.
    destruct (err_status err) as [n|] eqn:En.
    + destruct (known_status STATUS_CODES (Some n)) eqn:K.
      * destruct (Z.eqb_spec n 401) as [->|Hn]; [|discriminate].
        intros E. injection E as <-. auto.
      * discriminate.
    + discriminate.
  - intros (-> & -> & K & ->). rewrite K. reflexivity.
Qed.


End ErrorHandlerProperties.

Lemma error_status_is_known_witness :
  status_codes_excerpt 500%Z = Some "Internal Server Error" /\
  answer_status (appErrorHandler status_codes_excerpt node_querystring
                   (JStr "production") database_down AcceptsJson (JStr "/proxy"))
    = 500%Z /\
  answer_status (appErrorHandler status_codes_excerpt node_querystring
                   (JStr "production") not_found AcceptsJson (JStr "/nowhere"))
    = 404%Z.
Proof.
  split; [reflexivity|]. split.
  - rewrite (proj2 (error_status_is_known status_codes_excerpt node_querystring
                      "Internal Server Error" (JStr "production") database_down
                      AcceptsJson (JStr "/proxy") eq_refl ltac:(discriminate))).
    reflexivity.
  - rewrite (proj2 (error_status_is_known status_codes_excerpt node_querystring
                      "Internal Server Error" (JStr "production") not_found
                      AcceptsJson (JStr "/nowhere") eq_refl ltac:(discriminate))).
    reflexivity.
Defined.

Lemma server_error_reply_hides_message_and_code_witness :
  answer_reply (appErrorHandler status_codes_excerpt node_querystring
                  (JStr "production") database_down AcceptsJson (JStr "/proxy"))
  = ReplyJson (JObj [("code", JUndefined);
                     ("message", JStr "Internal Server Error");
                     ("stack", JUndefined)]).
Proof.
  destruct (server_error_reply_hides_message_and_code status_codes_excerpt
              node_querystring (JStr "production") database_down
              (mkHttpError None JUndefined None (err_stack database_down))
              AcceptsJson (JStr "/proxy") eq_refl eq_refl eq_refl)
    as (_ & E & _).
  rewrite E. reflexivity.
Defined.

Lemma stack_sent_only_when_local_witness :
  isLocal (JStr "production") = false /\
  answer_reply (appErrorHandler status_codes_excerpt node_querystring
                  (JStr "production") not_found AcceptsJson (JStr "/nowhere"))
  = ReplyJson (JObj [("code", JUndefined); ("message", JStr "Not Found");
                     ("stack", JUndefined)]).
Proof.
  split; [reflexivity|].
  destruct (stack_sent_only_when_local status_codes_excerpt node_querystring
              (JStr "production") not_found
              (mkHttpError (Some 404%Z) JUndefined (Some "Not Found") JUndefined)
              AcceptsJson (JStr "/nowhere") eq_refl eq_refl eq_refl eq_refl)
    as (E & _).
  rewrite E. reflexivity.
Defined.


Example unauthorized_html_goes_to_login :
  answer_reply (appErrorHandler status_codes_excerpt node_querystring
                  (JStr "production") unauthorized AcceptsHtml (JStr "/admin?x=1"))
  = ReplyRedirect "/?login=true&redirect=%2Fadmin%3Fx%3D1".
Proof. reflexivity. Qed.

Example local_shows_stack :
  answer_reply (appErrorHandler status_codes_excerpt node_querystring
                  (JStr "local") not_found AcceptsJson (JStr "/nowhere"))
  = ReplyJson (JObj [("code", JUndefined); ("message", JStr "Not Found");
                     ("stack", JStr "NotFoundError: Not Found at notFoundHandler")]).
Proof. reflexivity. Qed.

Example upper_case_is_no_environment :
  isProduction (JStr "Production") = false /\ isProduction JUndefined = false.
Proof. split; reflexivity. Qed.


(** ** The logger's set-up *)

Lemma indexOf_found (x : string) (names : list string) :
  (0 <= indexOf x names)%Z -> In x names.
Proof.
  induction names as [|n names IH]; simpl; [lia|].
  destruct (String.eqb_spec n x) as [->|_]; [auto|].
  destruct (Z.ltb_spec (indexOf x names) 0); [lia|].
  intros _. right. apply IH. lia.
Qed.

Lemma indexOf_missing (x : string) (names : list string) :
  (indexOf x names < 0)%Z -> ~ In x names.
Proof.
  induction names as [|n names IH]; simpl; [tauto|].
  destruct (String.eqb_spec n x) as [->|Hne]; [lia|].
  destruct (Z.ltb_spec (indexOf x names) 0); [|lia].
  intros _ [E|Hin]; [contradiction|]. apply IH; assumption.
Qed.

Lemma indexOf_bounds (x : string) (names : list string) :
  (-1 <= indexOf x names)%Z.
Proof.
  induction names as [|n names IH]; simpl; [lia|].
  destruct (n =? x); [lia|].
  destruct (Z.ltb_spec (indexOf x names) 0); lia.
Qed.

(** The level the streams get for the text [s]. *)
Lemma chosen_level_valid (s : string) :
  In (if (indexOf (toLowerCase s) LOG_LEVEL_NAMES <? 0)%Z
      then DEFAULT_LOG_LEVEL else toLowerCase s) LOG_LEVEL_NAMES.
Proof.
  destruct (Z.ltb_spec (indexOf (toLowerCase s) LOG_LEVEL_NAMES) 0).
  - simpl. auto.
  - apply indexOf_found. assumption.
Qed.

(** X20: Whatever the options and the configuration say, when [init] gets as
    far as creating the logger every stream has one of the six level
    names, all streams have the same one, and there are at most two. *)
Theorem stream_levels_are_valid (options log_level log_token : JsVal)
  (streams : list Stream) :
  init_streams options log_level log_token = Normal streams ->
  (List.length streams <= 2)%nat /\
  exists level,
    In level LOG_LEVEL_NAMES /\
    Forall (fun s => stream_level s = level) streams.
Proof.
  unfold init_streams.
  destruct (js_or (js_or (get_prop (js_or options (JObj [])) "level") log_level)
              (JStr EmptyString)) as [| | | |s| | |]; try discriminate.
  intros E. injection E as <-.
  split.
  - destruct (negb _); destruct (to_boolean log_token); simpl; lia.
  - eexists. split; [apply (chosen_level_valid s)|].
    destruct (negb _); destruct (to_boolean log_token); simpl;
      repeat constructor.
Qed.

(** X21: A level given in the options as non-empty text decides alone: the
    level in the configuration is not looked at.  Its spelling may be in
    any letter case; text that is no level name gives [info], even when
    the configuration names a level. *)
Theorem level_option_wins (options log_level log_level' log_token : JsVal)
  (s : string) :
  get_prop (js_or options (JObj [])) "level" = JStr s -> s <> EmptyString ->
  init_streams options log_level log_token
    = init_streams options log_level' log_token /\
  exists streams,
    init_streams options log_level log_token = Normal streams /\
    Forall (fun st => stream_level st
                      = if existsb (String.eqb (toLowerCase s)) LOG_LEVEL_NAMES
                        then toLowerCase s else "info") streams.
Proof.
  intros Hl Hs. unfold init_streams. rewrite Hl.
  assert (T : to_boolean (JStr s) = true).
  { simpl. destruct (String.eqb_spec s EmptyString); [contradiction|reflexivity]. }
  assert (J : forall l, js_or (js_or (JStr s) l) (JStr EmptyString) = JStr s).
  { intros l. unfold js_or. rewrite T, T. reflexivity. }
  rewrite !J.
  split; [reflexivity|].
  eexists. split; [reflexivity|].
  assert (L : (if (indexOf (toLowerCase s) LOG_LEVEL_NAMES <? 0)%Z
               then DEFAULT_LOG_LEVEL else toLowerCase s)
              = (if existsb (String.eqb (toLowerCase s)) LOG_LEVEL_NAMES
                 then toLowerCase s else "info")).
  { destruct (Z.ltb_spec (indexOf (toLowerCase s) LOG_LEVEL_NAMES) 0) as [H|H].
    - apply indexOf_missing in H.
      destruct (existsb _ _) eqn:E; [|reflexivity].
      apply existsb_exists in E. destruct E as (x & Hx & Ex).
      apply String.eqb_eq in Ex. subst x. contradiction.
    - apply indexOf_found in H.
      destruct (existsb _ _) eqn:E; [reflexivity|].
      assert (existsb (String.eqb (toLowerCase s)) LOG_LEVEL_NAMES = true)
        by (apply existsb_exists; exists (toLowerCase s); split;
            [exact H|apply String.eqb_refl]).
      congruence. }
  rewrite L.
  destruct (negb _); destruct (to_boolean log_token); simpl; repeat constructor.
Qed.

(** X22: A level that is truthy and not text, such as one of bunyan's level
    numbers, makes [init] throw before any logger exists. *)
Theorem level_must_be_text (options log_level log_token v : JsVal) :
  js_or (get_prop (js_or options (JObj [])) "level") log_level = v ->
  to_boolean v = true -> (forall s, v <> JStr s) ->
  init_streams options log_level log_token = Throw (NotAFunction "toLowerCase").
Proof.
  intros E T Hv. unfold init_streams. rewrite E.
  unfold js_or. rewrite T.
  destruct v; try reflexivity. destruct (Hv s eq_refl).
Qed.

Lemma stream_levels_are_valid_witness :
  init_streams (JObj [("level", JStr "WARN")]) (JStr "debug") (JStr "t0k3n")
    = Normal [StdoutStream "warn"; LogentriesStream "warn" (JStr "t0k3n") true 10000] /\
  (List.length [StdoutStream "warn";
                LogentriesStream "warn" (JStr "t0k3n") true 10000] <= 2)%nat /\
  exists level,
    In level LOG_LEVEL_NAMES /\
    Forall (fun s => stream_level s = level)
      [StdoutStream "warn"; LogentriesStream "warn" (JStr "t0k3n") true 10000].
Proof.
  split; [reflexivity|].
  apply (stream_levels_are_valid (JObj [("level", JStr "WARN")]) (JStr "debug")
           (JStr "t0k3n")
           [StdoutStream "warn"; LogentriesStream "warn" (JStr "t0k3n") true 10000]).
  reflexivity.
Defined.

Lemma level_option_wins_witness :
  init_streams (JObj [("level", JStr "verbose")]) (JStr "debug") JUndefined
    = init_streams (JObj [("level", JStr "verbose")]) JUndefined JUndefined /\
  init_streams (JObj [("level", JStr "verbose")]) (JStr "debug") JUndefined
    = Normal [StdoutStream "info"].
Proof.
  split.
  - apply (level_option_wins (JObj [("level", JStr "verbose")]) (JStr "debug")
             JUndefined JUndefined "verbose"); [reflexivity|discriminate].
  - reflexivity.
Defined.

Lemma level_must_be_text_witness :
  init_streams (JObj [("level", JNum 30)]) (JStr "debug") JUndefined
    = Throw (NotAFunction "toLowerCase").
Proof.
  apply (level_must_be_text (JObj [("level", JNum 30)]) (JStr "debug") JUndefined
           (JNum 30)); [reflexivity|reflexivity|discriminate].
Defined.

Example no_stream_at_all :
  init_streams (JObj [("disableStdout", JBool true)]) (JStr "debug") JUndefined
    = Normal [].
Proof. reflexivity. Qed.

(** ** The error serializer *)

Lemma lookup_has_key (k : string) (ps : Props) :
  has_key k ps = false -> lookup k ps = None.
Proof. unfold has_key. destruct (lookup k ps); [discriminate|reflexivity]. Qed.

Lemma copy_property_eq (members : Members) (serialized : Props) (p : string)
  (m : Member) :
  copy_property members serialized (p, m)
  = match taken p members with
    | Some v =>
        if negb (has_key p serialized) && copied p
        then assign p v serialized else serialized
    | None => serialized
    end.
Proof.
  unfold copy_property, taken. cbn [fst].
  destruct (member_lookup p members) as [[v|]|]; reflexivity.
Qed.

(** What the loop over [entries] leaves under key [k]: the value that was
    there, or else the value the error has for [k], when [k] is visited,
    is not a function and is neither [stack] nor [cause]. *)
Lemma fold_copy_lookup (members entries : Members) (serialized : Props)
  (k : string) :
  lookup k (fold_left (copy_property members) entries serialized)
  = match lookup k serialized with
    | Some v => Some v
    | None =>
        if existsb (String.eqb k) (map fst entries) && copied k
        then taken k members else None
    end.
Proof.
  revert serialized.
  induction entries as [|[p m] entries IH]; intros serialized.
  - simpl. destruct (lookup k serialized); reflexivity.
  - cbn [fold_left map fst existsb]. rewrite IH, copy_property_eq. clear IH.
    destruct (String.eqb_spec k p) as [->|Hne]; cbn [orb].
    + destruct (taken p members) as [v|] eqn:Tk.
      * destruct (has_key p serialized) eqn:Hp; cbn [negb andb].
        -- unfold has_key in Hp.
           destruct (lookup p serialized); [reflexivity|discriminate].
        -- destruct (copied p) eqn:Cp.
           ++ rewrite lookup_assign_eq, (lookup_has_key _ _ Hp). reflexivity.
           ++ rewrite (lookup_has_key _ _ Hp), andb_false_r. reflexivity.
      * destruct (lookup p serialized); [reflexivity|].
        destruct (existsb _ _); destruct (copied p); reflexivity.
    + assert (E : forall v, lookup k (assign p v serialized) = lookup k serialized)
        by (intros v; apply lookup_assign_ne; congruence).
      destruct (taken p members) as [v|]; [|reflexivity].
      destruct (negb (has_key p serialized) && copied p);
        rewrite ?E; reflexivity.
Qed.

Lemma member_lookup_visited (k : string) (members : Members) :
  existsb (String.eqb k) (map fst members) = false -> taken k members = None.
Proof.
  unfold taken.
  induction members as [|[p m] members IH]; simpl; [reflexivity|].
  rewrite (String.eqb_sym p k).
  destruct (k =? p); simpl; [discriminate|exact IH].
Qed.

Lemma fold_copy_length (members entries : Members) (serialized : Props) :
  (List.length serialized
   <= List.length (fold_left (copy_property members) entries serialized))%nat.
Proof.
  assert (A : forall k v ps, (List.length ps <= List.length (assign k v ps))%nat).
  { intros k v ps. induction ps as [|[k' v'] ps IH]; simpl; [lia|].
    destruct (k' =? k); simpl; lia. }
  revert serialized.
  induction entries as [|[p m] entries IH]; intros serialized;
    cbn [fold_left]; [lia|].
  etransitivity; [|apply IH].
  rewrite copy_property_eq.
  destruct (taken p members) as [v|]; [|lia].
  destruct (negb (has_key p serialized) && copied p); [apply A|lia].
Qed.

Section ErrorSerializerProperties.

Variable stdSerializeError : string -> string -> Members -> Props.
Variable util_inspect : JsVal -> string.

(** X28: For an error object that the standard serializer turns into a plain
    object, the loop adds the error's own enumerable properties to it:
    under each key the serialized form holds what the standard serializer
    put there, or else the error's value for the key, unless that value is
    a function or the key is [stack] or [cause], which are never copied
    from the error. *)
Theorem serializeError_keeps_properties (name message : string)
  (members : Members) (k : string) :
  lookup k (inspected stdSerializeError name message members)
  = match lookup k (stdSerializeError name message members) with
    | Some v => Some v
    | None =>
        if (k =? "stack") || (k =? "cause") then None
        else match member_lookup k members with
             | Some (MValue v) => Some v
             | Some MFunction => None
             | None => None
             end
    end.
Proof.
  unfold inspected. rewrite fold_copy_lookup.
  destruct (lookup k _); [reflexivity|].
  assert (C : copied k = negb ((k =? "stack") || (k =? "cause"))).
  { unfold copied. cbn [indexOf].
    rewrite (String.eqb_sym "stack" k), (String.eqb_sym "cause" k).
    destruct (k =? "stack"); [reflexivity|].
    destruct (k =? "cause"); reflexivity. }
  rewrite C.
  assert (T : taken k members
              = match member_lookup k members with
                | Some (MValue v) => Some v
                | Some MFunction => None
                | None => None
                end)
    by (unfold taken; destruct (member_lookup k members) as [[v|]|]; reflexivity).
  rewrite <- T.
  destruct (existsb (String.eqb k) (map fst members)) eqn:V; cbn [andb].
  - destruct ((k =? "stack") || (k =? "cause")); reflexivity.
  - rewrite (member_lookup_visited k members V).
    destruct ((k =? "stack") || (k =? "cause")); reflexivity.
Qed.

(** X29: The serialized error is turned into text by [util.inspect] whenever
    it has any property at all, and stays an object only when it is
    empty: the inspect step is no fallback for an empty result, it is
    what happens to every result that is not empty. *)
Theorem serializeError_inspects_when_not_empty (name message : string)
  (members : Members) :
  (inspected stdSerializeError name message members <> [] ->
   serializeError stdSerializeError util_inspect name message members
   = JStr (util_inspect (JObj (inspected stdSerializeError name message members)))) /\
  (inspected stdSerializeError name message members = [] ->
   serializeError stdSerializeError util_inspect name message members = JObj []) /\
  (stdSerializeError name message members <> [] ->
   inspected stdSerializeError name message members <> []).
Proof.
  unfold serializeError.
  split; [|split].
  - intros H. destruct (inspected _ _ _ _); [contradiction|reflexivity].
  - intros ->. reflexivity.
  - intros H E. unfold inspected in E.
    pose proof (fold_copy_length members members
                  (stdSerializeError name message members)) as L.
    rewrite E in L. destruct (stdSerializeError _ _ _); [contradiction|simpl in L; lia].
Qed.

End ErrorSerializerProperties.

Example upstream_500_status_is_kept :
  lookup "statusCode" (inspected std_error "HTTPError" "Response code 500" upstream_500)
    = Some (JNum 500) /\
  lookup "retry" (inspected std_error "HTTPError" "Response code 500" upstream_500)
    = None /\
  lookup "stack" (inspected std_error "HTTPError" "Response code 500" upstream_500)
    = Some (JStr "HTTPError: Response code 500 at ...").
Proof. repeat split; reflexivity. Qed.

Lemma serializeError_inspects_when_not_empty_witness :
  exists text,
    serializeError std_error flat_inspect "HTTPError" "Response code 500" upstream_500
    = JStr text.
Proof.
  eexists.
  apply (proj1 (serializeError_inspects_when_not_empty std_error flat_inspect
                  "HTTPError" "Response code 500" upstream_500)).
  discriminate.
Defined.


(** ** Shutting down *)

Lemma shutdowns_app (a b : list Effect) :
  shutdowns (a ++ b) = (shutdowns a ++ shutdowns b)%list.
Proof.
  induction a as [|e a IH]; simpl; [reflexivity|].
  destruct e; simpl; rewrite ?IH; reflexivity.
Qed.

Lemma timers_app (a b : list Effect) :
  timers (a ++ b) = (timers a ++ timers b)%list.
Proof.
  induction a as [|e a IH]; simpl; [reflexivity|].
  destruct e; simpl; rewrite ?IH; reflexivity.
Qed.

Lemma gracefulShutdown_settled (k : Killer) (st : Lifecycle) :
  settled st -> settled (gracefulShutdown k st).
Proof.
  intros [T [[A S]|[A [k0 S]]]]; unfold gracefulShutdown; rewrite A;
    unfold settled; simpl; rewrite !shutdowns_app, !timers_app, T, S; simpl.
  - split; [reflexivity|]. right. eauto.
  - split; [reflexivity|]. right. split; [exact A|eauto].
Qed.

Lemma gracefulShutdown_keeps_first (k k0 : Killer) (st : Lifecycle) :
  settled st -> shutdowns (effects st) = [k0] ->
  shutdowns (effects (gracefulShutdown k st)) = [k0].
Proof.
  intros [T [[A S]|[A _]]] S0; [congruence|].
  unfold gracefulShutdown. rewrite A. simpl.
  rewrite shutdowns_app, S0. reflexivity.
Qed.

(** Effects other than a shutdown or a timer change nothing of this. *)
Lemma quiet_settled (es : list Effect) (st : Lifecycle) :
  shutdowns es = [] -> timers es = [] ->
  settled st -> settled (effect es st).
Proof.
  intros Hs Ht [T H]. unfold settled. simpl.
  rewrite shutdowns_app, timers_app, T, Hs, Ht, !app_nil_r.
  split; [reflexivity|exact H].
Qed.

Lemma logged_settled (level text : string) (st : Lifecycle) :
  settled st -> settled (effect [Logged level text] st).
Proof. apply quiet_settled; reflexivity. Qed.

Lemma emit_uncaughtException_settled (err : JsVal) (st : Lifecycle) :
  settled st -> settled (emit_uncaughtException err st).
Proof.
  intros H. unfold emit_uncaughtException.
  destruct (once_uncaughtException st).
  - unfold uncaughtExceptionHandler.
    assert (H' : settled (remove_once_uncaughtException st)) by exact H.
    destruct (is_nullish err).
    + apply quiet_settled; [reflexivity|reflexivity|exact H'].
    + destruct (strict_eq_string _ _).
      * apply logged_settled. exact H'.
      * apply gracefulShutdown_settled. apply logged_settled. exact H'.
  - apply quiet_settled; [reflexivity|reflexivity|exact H].
Qed.

Lemma deliver_settled (i : Incident) (st : Lifecycle) :
  settled st -> settled (deliver i st).
Proof.
  intros H. destruct i as [s|err| |err]; simpl.
  - destruct (existsb _ _).
    + unfold killSignalHandler. apply gracefulShutdown_settled.
      apply logged_settled. exact H.
    + destruct (s =? "SIGHUP");
        (apply quiet_settled; [reflexivity|reflexivity|exact H]).
  - apply emit_uncaughtException_settled. exact H.
  - destruct (on_unhandledRejection st); [|exact H].
    unfold unhandledRejectionHandler. apply gracefulShutdown_settled.
    apply logged_settled. exact H.
  - destruct (server st); [|apply emit_uncaughtException_settled; exact H].
    destruct (is_nullish err) eqn:N; unfold serverErrorHandler; rewrite N.
    + apply emit_uncaughtException_settled.
      apply quiet_settled; [reflexivity|reflexivity|exact H].
    + apply gracefulShutdown_settled. apply logged_settled. exact H.
Qed.

Lemma deliver_all_settled (incidents : list Incident) (st : Lifecycle) :
  settled st -> settled (deliver_all incidents st).
Proof.
  revert st. induction incidents as [|i incidents IH]; intros st H; simpl.
  - exact H.
  - apply IH. apply deliver_settled. exact H.
Qed.

Lemma running_settled : settled running.
Proof. split; [reflexivity|]. left. split; reflexivity. Qed.

Lemma quiet_keeps_first (es : list Effect) (k0 : Killer) (st : Lifecycle) :
  shutdowns es = [] -> shutdowns (effects st) = [k0] ->
  shutdowns (effects (effect es st)) = [k0].
Proof.
  intros Hs S. simpl. rewrite shutdowns_app, S, Hs. reflexivity.
Qed.

Lemma emit_uncaughtException_keeps_first (err : JsVal) (k0 : Killer)
  (st : Lifecycle) :
  settled st -> shutdowns (effects st) = [k0] ->
  shutdowns (effects (emit_uncaughtException err st)) = [k0].
Proof.
  intros H S. unfold emit_uncaughtException.
  destruct (once_uncaughtException st).
  - unfold uncaughtExceptionHandler.
    assert (H' : settled (remove_once_uncaughtException st)) by exact H.
    assert (S' : shutdowns (effects (remove_once_uncaughtException st)) = [k0])
      by exact S.
    destruct (is_nullish err).
    + apply quiet_keeps_first; [reflexivity|exact S'].
    + destruct (strict_eq_string _ _).
      * apply quiet_keeps_first; [reflexivity|exact S'].
      * apply gracefulShutdown_keeps_first; [apply logged_settled; exact H'|].
        apply quiet_keeps_first; [reflexivity|exact S'].
  - apply quiet_keeps_first; [reflexivity|exact S].
Qed.

Lemma deliver_keeps_first (i : Incident) (k0 : Killer) (st : Lifecycle) :
  settled st -> shutdowns (effects st) = [k0] ->
  shutdowns (effects (deliver i st)) = [k0].
Proof.
  intros H S.
  destruct i as [s|err| |err]; simpl.
  - destruct (existsb _ _).
    + unfold killSignalHandler.
      apply gracefulShutdown_keeps_first; [apply logged_settled; exact H|].
      apply quiet_keeps_first; [reflexivity|exact S].
    + destruct (s =? "SIGHUP");
        (apply quiet_keeps_first; [reflexivity|exact S]).
  - apply emit_uncaughtException_keeps_first; assumption.
  - destruct (on_unhandledRejection st); [|exact S].
    unfold unhandledRejectionHandler.
    apply gracefulShutdown_keeps_first; [apply logged_settled; exact H|].
    apply quiet_keeps_first; [reflexivity|exact S].
  - destruct (server st); [|apply emit_uncaughtException_keeps_first; assumption].
    destruct (is_nullish err) eqn:N; unfold serverErrorHandler; rewrite N.
    + apply emit_uncaughtException_keeps_first.
      * apply quiet_settled; [reflexivity|reflexivity|exact H].
      * apply quiet_keeps_first; [reflexivity|exact S].
    + apply gracefulShutdown_keeps_first; [apply logged_settled; exact H|].
      apply quiet_keeps_first; [reflexivity|exact S].
Qed.

(** X23: Whatever happens to the running process (signals, uncaught
    exceptions, unhandled rejections, server errors, in any number and
    order), a graceful shutdown is started at most once, with one timer
    behind it; the killer that will end the process is the one of the
    incident that started it, and nothing that comes later replaces it.
    From then on the middleware puts the 1 ms timeout on the connection
    of every request it sees, and never before. *)
Theorem graceful_shutdown_starts_once (incidents more : list Incident) :
  (List.length (shutdowns (effects (deliver_all incidents running))) <= 1)%nat /\
  timers (effects (deliver_all incidents running))
    = shutdowns (effects (deliver_all incidents running)) /\
  (forall k, shutdowns (effects (deliver_all incidents running)) = [k] ->
             shutdowns (effects (deliver_all more (deliver_all incidents running)))
             = [k]) /\
  shutdown_middleware (deliver_all incidents running)
    = (match shutdowns (effects (deliver_all incidents running)) with
       | [] => None
       | _ :: _ => Some 1%Z
       end).
Proof.
  pose proof (deliver_all_settled incidents running running_settled) as H.
  set (st := deliver_all incidents running) in *.
  split; [|split; [|split]].
  - destruct H as [_ [[_ ->]|[_ [k ->]]]]; simpl; lia.
  - destruct H as [T _]. exact T.
  - intros k S. clearbody st. revert st H S.
    induction more as [|i more IH]; intros st H S; simpl; [exact S|].
    apply IH; [apply deliver_settled; exact H|].
    apply deliver_keeps_first; assumption.
  - unfold shutdown_middleware.
    destruct H as [_ [[-> ->]|[-> [k ->]]]]; reflexivity.
Qed.

Lemma once_signal_removed (signal : string) (l : list string) :
  existsb (String.eqb signal) (filter (fun s => negb (s =? signal)) l) = false.
Proof.
  induction l as [|s l IH]; simpl; [reflexivity|].
  destruct (String.eqb_spec s signal) as [->|Hne]; simpl; [exact IH|].
  rewrite IH. destruct (String.eqb_spec signal s); [congruence|reflexivity].
Qed.

(** X24: While the process is shutting down, a kill signal whose listener is
    still registered does not end it: the handler only logs that the
    signal was received and that a shutdown is under way, its killer is
    dropped, and the listener, added with [once], is used up.  A kill
    signal whose listener is used up gets the default action at once,
    with no line logged; this is so for the very signal that started the
    shutdown when it is sent a second time. *)
Theorem signal_during_shutdown (signal : string) (st : Lifecycle) :
  app_isShuttingDown st = Some true ->
  (existsb (String.eqb signal) (once_signal st) = true ->
   effects (deliver (Signal signal) st)
     = (effects st ++
        [Logged "info" "Kill signal received";
         Logged "warn" "Attempt to shut down while already shutting down..."])%list /\
   existsb (String.eqb signal) (once_signal (deliver (Signal signal) st)) = false) /\
  (existsb (String.eqb signal) (once_signal st) = false ->
   signal <> "SIGHUP" ->
   deliver (Signal signal) st = effect [DefaultAction signal] st) /\
  (In signal ["SIGUSR2"; "SIGINT"; "SIGTERM"] ->
   app_isShuttingDown (deliver (Signal signal) running) = Some true /\
   shutdowns (effects (deliver (Signal signal) running)) = [KillWithSignal signal] /\
   deliver (Signal signal) (deliver (Signal signal) running)
     = effect [DefaultAction signal] (deliver (Signal signal) running)).
Proof.
  intros A. split; [|split].
  - intros E.
    assert (D : deliver (Signal signal) st
                = effect [Logged "warn" "Attempt to shut down while already shutting down..."]
                    (effect [Logged "info" "Kill signal received"]
                       (remove_once_signal signal st))).
    { simpl. rewrite E. unfold killSignalHandler, gracefulShutdown. simpl.
      rewrite A. reflexivity. }
    rewrite D. split.
    + simpl. rewrite <- app_assoc. reflexivity.
    + simpl. apply once_signal_removed.
  - intros E N. simpl. rewrite E.
    destruct (String.eqb_spec signal "SIGHUP"); [contradiction|reflexivity].
  - simpl. intros [<-|[<-|[<-|[]]]]; repeat split; reflexivity.
Qed.

(** X25: The listener for uncaught exceptions serves once: after the first
    uncaught exception, even one it merely suppresses (ECONNRESET, which
    starts no shutdown), the next one finds no listener. *)
Theorem uncaught_exception_handled_once (err1 err2 : JsVal) (st : Lifecycle) :
  once_uncaughtException (deliver (UncaughtException err1) st) = false /\
  deliver (UncaughtException err2) (deliver (UncaughtException err1) st)
    = effect [Uncaught] (deliver (UncaughtException err1) st) /\
  (once_uncaughtException st = true -> is_nullish err1 = false ->
   strict_eq_string (get_prop err1 "code") "ECONNRESET" = true ->
   effects (deliver (UncaughtException err1) st)
     = (effects st ++ [Logged "error" "Exception suppressed. Check request logs"])%list /\
   app_isShuttingDown (deliver (UncaughtException err1) st) = app_isShuttingDown st).
Proof.
  assert (F : once_uncaughtException (deliver (UncaughtException err1) st) = false).
  { simpl. unfold emit_uncaughtException.
    destruct (once_uncaughtException st) eqn:O; [|simpl; exact O].
    unfold uncaughtExceptionHandler.
    destruct (is_nullish err1); [reflexivity|].
    destruct (strict_eq_string _ _); [reflexivity|].
    unfold gracefulShutdown. simpl.
    destruct (app_isShuttingDown st) as [[|]|]; reflexivity. }
  split; [exact F|]. split.
  - change (deliver (UncaughtException err2) ?s) with (emit_uncaughtException err2 s).
    unfold emit_uncaughtException at 1. rewrite F. reflexivity.
  - intros O N C. simpl. unfold emit_uncaughtException. rewrite O.
    unfold uncaughtExceptionHandler. rewrite N, C. split; reflexivity.
Qed.

(** X26: Until gracefulShutdownMiddleware has been called there is no app to
    shut down gracefully: whatever the incident, no shutdown is started
    and no timer set; a handler that gets to [gracefulShutdown] calls its
    killer at once. *)
Theorem no_grace_before_middleware (i : Incident) (st : Lifecycle) :
  app_isShuttingDown st = None ->
  shutdowns (effects (deliver i st)) = shutdowns (effects st) /\
  timers (effects (deliver i st)) = timers (effects st) /\
  app_isShuttingDown (deliver i st) = None /\
  (forall signal, i = Signal signal ->
     existsb (String.eqb signal) (once_signal st) = true ->
     effects (deliver i st)
     = (effects st ++ [Logged "info" "Kill signal received"; ProcessKill signal])%list).
Proof.
  intros A.
  assert (G : forall k st', app_isShuttingDown st' = None ->
            gracefulShutdown k st' = effect (call_killer k) st')
    by (intros k st' A'; unfold gracefulShutdown; rewrite A'; reflexivity).
  assert (U : forall err st',
            app_isShuttingDown st' = None ->
            shutdowns (effects (emit_uncaughtException err st')) = shutdowns (effects st') /\
            timers (effects (emit_uncaughtException err st')) = timers (effects st') /\
            app_isShuttingDown (emit_uncaughtException err st') = None).
  { intros err st' A'. unfold emit_uncaughtException.
    destruct (once_uncaughtException st').
    - unfold uncaughtExceptionHandler.
      destruct (is_nullish err); [|destruct (strict_eq_string _ _)];
        rewrite ?G by exact A'; simpl;
        rewrite ?shutdowns_app, ?timers_app; simpl; rewrite ?app_nil_r; auto.
    - simpl. rewrite shutdowns_app, timers_app. simpl. rewrite !app_nil_r. auto. }
  destruct i as [s|err| |err]; simpl.
  - destruct (existsb _ _) eqn:E.
    + unfold killSignalHandler. rewrite G by exact A. simpl.
      rewrite !shutdowns_app, !timers_app. simpl. rewrite !app_nil_r.
      repeat split; auto.
      intros signal Es _. injection Es as <-. rewrite <- app_assoc. reflexivity.
    + destruct (s =? "SIGHUP"); simpl; rewrite shutdowns_app, timers_app;
        simpl; rewrite !app_nil_r;
        (repeat split; auto; intros signal Es E'; injection Es as <-; congruence).
  - destruct (U err st A) as (U1 & U2 & U3).
    repeat split; auto; discriminate.
  - destruct (on_unhandledRejection st).
    + unfold unhandledRejectionHandler. rewrite G by exact A. simpl.
      rewrite !shutdowns_app, !timers_app. simpl. rewrite !app_nil_r.
      repeat split; auto; discriminate.
    + repeat split; auto; discriminate.
  - destruct (server st).
    + destruct (is_nullish err) eqn:N; unfold serverErrorHandler; rewrite N.
      * destruct (U (NotAnObject "code") (effect [Threw (NotAnObject "code")] st) A)
          as (U1 & U2 & U3).
        rewrite U1, U2. simpl. rewrite shutdowns_app, timers_app. simpl.
        rewrite !app_nil_r. repeat split; auto; discriminate.
      * rewrite G by exact A. simpl.
        rewrite ?shutdowns_app, ?timers_app; simpl; rewrite ?app_nil_r;
        repeat split; auto; discriminate.
    + destruct (U err st A) as (U1 & U2 & U3).
      repeat split; auto; discriminate.
Qed.

Lemma deliver_before_listening (i : Incident) (st : Lifecycle) :
  server st = false ->
  server (deliver i st) = false /\
  exists es, effects (deliver i st) = (effects st ++ es)%list /\
             ~ In (Logged "fatal" PORT_IN_USE) es.
Proof.
  intros S.
  assert (G : forall k st' es0,
            server st' = false ->
            effects st' = (effects st ++ es0)%list ->
            ~ In (Logged "fatal" PORT_IN_USE) es0 ->
            server (gracefulShutdown k st') = false /\
            exists es, effects (gracefulShutdown k st') = (effects st ++ es)%list /\
                       ~ In (Logged "fatal" PORT_IN_USE) es).
  { intros k st' es0 S' E N. unfold gracefulShutdown.
    destruct (app_isShuttingDown st') as [[|]|]; [| |destruct k]; simpl;
      (split; [exact S'|]);
      rewrite E, <- ?app_assoc; eexists; (split; [reflexivity|]);
      rewrite ?in_app_iff; simpl; intuition discriminate. }
  assert (U : forall err,
            server (emit_uncaughtException err st) = false /\
            exists es, effects (emit_uncaughtException err st) = (effects st ++ es)%list /\
                       ~ In (Logged "fatal" PORT_IN_USE) es).
  { intros err. unfold emit_uncaughtException.
    destruct (once_uncaughtException st).
    - unfold uncaughtExceptionHandler.
      destruct (is_nullish err); [|destruct (strict_eq_string _ _)].
      + split; [exact S|]. eexists. split; [reflexivity|].
        simpl. intros [H|[]]. discriminate.
      + split; [exact S|]. eexists. split; [reflexivity|].
        simpl. intros [H|[]]. discriminate.
      + apply (G _ _ [Logged "fatal" "Uncaught exception"]);
          [exact S|reflexivity|]. simpl. intros [H|[]]. discriminate.
    - split; [exact S|]. eexists. split; [reflexivity|].
      simpl. intros [H|[]]. discriminate. }
  destruct i as [s|err| |err]; simpl.
  - destruct (existsb _ _).
    + unfold killSignalHandler.
      apply (G _ _ [Logged "info" "Kill signal received"]);
        [exact S|reflexivity|]. simpl. intros [H|[]]. discriminate.
    + destruct (s =? "SIGHUP"); (split; [exact S|]); eexists;
        (split; [reflexivity|]); simpl; intuition discriminate.
  - apply U.
  - destruct (on_unhandledRejection st).
    + unfold unhandledRejectionHandler.
      apply (G _ _ [Logged "fatal" "Unhandled rejection"]);
        [exact S|reflexivity|]. simpl. intros [H|[]]. discriminate.
    + split; [exact S|]. exists []. rewrite app_nil_r. split; [reflexivity|].
      intros [].
  - rewrite S. apply U.
Qed.

(** X27: The hint that the port is in use is logged for a server error with
    code EADDRINUSE once [setServer] has attached the listener; before
    that, which is when listening fails, no incident of any kind gets it
    logged: the error arrives as an uncaught exception. *)
Theorem port_in_use_hint_needs_setServer (incidents : list Incident)
  (err : JsVal) :
  ~ In (Logged "fatal" PORT_IN_USE) (effects (deliver_all incidents starting)) /\
  (is_nullish err = false ->
   strict_eq_string (get_prop err "code") "EADDRINUSE" = true ->
   In (Logged "fatal" PORT_IN_USE) (effects (deliver (ServerError err) running)) /\
   deliver (ServerError err) starting = deliver (UncaughtException err) starting).
Proof.
  split.
  - assert (H : forall st,
              server st = false ->
              ~ In (Logged "fatal" PORT_IN_USE) (effects st) ->
              ~ In (Logged "fatal" PORT_IN_USE) (effects (deliver_all incidents st))).
    { induction incidents as [|i incidents IH]; intros st S N; simpl; [exact N|].
      destruct (deliver_before_listening i st S) as (S' & es & E & Nes).
      apply IH; [exact S'|]. rewrite E, in_app_iff. tauto. }
    apply H; [reflexivity|]. simpl. tauto.
  - intros N C. split; [|reflexivity].
    assert (E : deliver (ServerError err) running = serverErrorHandler err running)
      by (simpl; rewrite N; reflexivity).
    rewrite E. unfold serverErrorHandler. rewrite N, C.
    unfold gracefulShutdown. simpl. unfold PORT_IN_USE. simpl. auto.
Qed.

Lemma graceful_shutdown_starts_once_witness :
  shutdowns (effects (deliver_all [Signal "SIGTERM"; UncaughtException out_of_luck]
                        running))
    = [KillWithSignal "SIGTERM"] /\
  shutdowns (effects (deliver_all [Signal "SIGINT"; UnhandledRejection]
                        (deliver_all [Signal "SIGTERM"; UncaughtException out_of_luck]
                           running)))
    = [KillWithSignal "SIGTERM"].
Proof.
  split; [reflexivity|].
  apply (proj1 (proj2 (proj2 (graceful_shutdown_starts_once
                                [Signal "SIGTERM"; UncaughtException out_of_luck]
                                [Signal "SIGINT"; UnhandledRejection])))).
  reflexivity.
Defined.

Lemma signal_during_shutdown_witness :
  effects (deliver (Signal "SIGINT") (deliver (Signal "SIGTERM") running))
  = (effects (deliver (Signal "SIGTERM") running) ++
     [Logged "info" "Kill signal received";
      Logged "warn" "Attempt to shut down while already shutting down..."])%list /\
  deliver (Signal "SIGINT") (deliver (Signal "SIGINT") (deliver (Signal "SIGTERM") running))
  = effect [DefaultAction "SIGINT"]
      (deliver (Signal "SIGINT") (deliver (Signal "SIGTERM") running)) /\
  deliver (Signal "SIGTERM") (deliver (Signal "SIGTERM") running)
  = effect [DefaultAction "SIGTERM"] (deliver (Signal "SIGTERM") running).
Proof.
  split; [|split].
  - apply (proj1 (signal_during_shutdown "SIGINT" (deliver (Signal "SIGTERM") running)
                    eq_refl)).
    reflexivity.
  - apply (proj1 (proj2 (signal_during_shutdown "SIGINT"
                           (deliver (Signal "SIGINT") (deliver (Signal "SIGTERM") running))
                           eq_refl))).
    + reflexivity.
    + discriminate.
  - apply (proj2 (proj2 (signal_during_shutdown "SIGTERM"
                           (deliver (Signal "SIGTERM") running) eq_refl))).
    simpl. tauto.
Defined.

Example hangup_reopens_log_files :
  effects (deliver (Signal "SIGHUP") running) = reopenLogFiles /\
  effects (deliver (Signal "SIGQUIT") running) = [DefaultAction "SIGQUIT"].
Proof. split; reflexivity. Qed.

Lemma uncaught_exception_handled_once_witness :
  effects (deliver (UncaughtException out_of_luck)
             (deliver (UncaughtException connection_reset) running))
  = [Logged "error" "Exception suppressed. Check request logs"; Uncaught].
Proof.
  destruct (uncaught_exception_handled_once connection_reset out_of_luck running)
    as (_ & E & S).
  destruct (S eq_refl eq_refl eq_refl) as (S1 & _).
  rewrite E. unfold effect. cbn [effects]. rewrite S1. reflexivity.
Defined.

Lemma no_grace_before_middleware_witness :
  effects (deliver (Signal "SIGINT")
             (handleKillSignals (handleUncaughtExceptions loading)))
  = [Logged "info" "Kill signal received"; ProcessKill "SIGINT"].
Proof.
  apply (proj2 (proj2 (proj2 (no_grace_before_middleware (Signal "SIGINT")
                                (handleKillSignals (handleUncaughtExceptions loading))
                                eq_refl))) "SIGINT"); reflexivity.
Defined.

Lemma port_in_use_hint_needs_setServer_witness :
  In (Logged "fatal" PORT_IN_USE)
     (effects (deliver (ServerError address_in_use) running)) /\
  effects (deliver (ServerError address_in_use) starting)
  = [Logged "fatal" "Uncaught exception";
     Logged "info" "Shutting down gracefully...";
     AsyncAuto (NotStarted "Server not started")
               (NotStarted "Secure server not started")
               (ExitWithStatus 2);
     SetTimeout 5000 (ExitWithStatus 2)].
Proof.
  destruct (proj2 (port_in_use_hint_needs_setServer [] address_in_use)
              eq_refl eq_refl) as (H & E).
  split; [exact H|]. rewrite E. reflexivity.
Defined.
